(** * ssync: endpoint resolution, exclusion matching, transfer arguments
      and the debounced watcher of [main.go], embedded in Rocq.

    Go strings are byte strings here ([string] of [ascii]); the functions of
    the Go standard library the program calls ([strings], [path/filepath] on
    Unix, [fsnotify.Op]) are written out on that representation, so that
    every function of [main.go] can be run on concrete inputs.  Where Go
    works on runes ([ToLower], [ToUpper], [TrimSpace], the question mark and
    the character classes of [Match]) the byte versions agree with it on
    ASCII text.  [Match] is the one of Go 1.16 and later, which checks the
    rest of the pattern before it answers false.

    What the operating system decides (working directory, home directory,
    the ignore file, the exit status of rsync, the file-system notifier) is a
    field of the [os.World] record the program is run in.  A call of
    [main.go] is a pair: what it wrote and ran, in order, and how it ended
    (return, [os.Exit], or the endless [select] of [startWatcher]).  The
    event loop of [startWatcher] is a transition function on the variable
    [syncTimer] and the timers of the runtime, over messages with their
    arrival times. *)

From Stdlib Require Import String Ascii List Bool Arith ZArith NArith Lia.
From Stdlib Require Import Permutation.
Import ListNotations.

Local Open Scope list_scope.
Local Open Scope string_scope.

(** ** Characters used by the program *)

Definition nl : string := String (ascii_of_nat 10) EmptyString.
Definition dq : string := String (ascii_of_nat 34) EmptyString.
Definition slash : ascii := "/"%char.
Definition star : ascii := "*"%char.
Definition backslash : ascii := ascii_of_nat 92.

(** ** Go's [strings] package, on byte strings *)

Module strings.

Definition HasPrefix (s prefix : string) : bool := String.prefix prefix s.

Fixpoint drop (n : nat) (s : string) : string :=
  match n, s with
  | O, _ => s
  | S _, EmptyString => EmptyString
  | S n', String _ s' => drop n' s'
  end.

Definition TrimPrefix (s prefix : string) : string :=
  if HasPrefix s prefix then drop (String.length prefix) s else s.

Fixpoint Contains (s substr : string) : bool :=
  String.prefix substr s ||
  match s with
  | EmptyString => false
  | String _ s' => Contains s' substr
  end.

(** [Split s sep] for a one-byte separator: the pieces between the
    separators, the empty string giving one empty piece. *)
Fixpoint Split1 (s : string) (sep : ascii) : list string :=
  match s with
  | EmptyString => [EmptyString]
  | String c s' =>
      if Ascii.eqb c sep then EmptyString :: Split1 s' sep
      else match Split1 s' sep with
           | [] => [String c EmptyString]
           | hd :: tl => String c hd :: tl
           end
  end.

Fixpoint Join (elems : list string) (sep : string) : string :=
  match elems with
  | [] => EmptyString
  | [e] => e
  | e :: rest => e ++ sep ++ Join rest sep
  end.

Definition is_upper (c : ascii) : bool :=
  let n := nat_of_ascii c in ((65 <=? n) && (n <=? 90))%nat.
Definition is_lower (c : ascii) : bool :=
  let n := nat_of_ascii c in ((97 <=? n) && (n <=? 122))%nat.

Definition lower_byte (c : ascii) : ascii :=
  if is_upper c then ascii_of_nat (nat_of_ascii c + 32) else c.
Definition upper_byte (c : ascii) : ascii :=
  if is_lower c then ascii_of_nat (nat_of_ascii c - 32) else c.

Fixpoint map_bytes (f : ascii -> ascii) (s : string) : string :=
  match s with
  | EmptyString => EmptyString
  | String c s' => String (f c) (map_bytes f s')
  end.

(** [ToLower] and [ToUpper] on bytes: the letters A to Z and a to z change
    case and every other byte is kept.  Go maps runes, so the two agree with
    Go's on strings of bytes below 128 (beyond them Go also maps, say, the
    dotless i to I and the Kelvin sign to k). *)
Definition ToLower : string -> string := map_bytes lower_byte.
Definition ToUpper : string -> string := map_bytes upper_byte.

(** White space of [TrimSpace] among the bytes below 128:
    tab, line feed, vertical tab, form feed, carriage return, space. *)
Definition is_space (c : ascii) : bool :=
  let n := nat_of_ascii c in (((9 <=? n) && (n <=? 13)) || (n =? 32))%nat.

Fixpoint TrimLeftSpace (s : string) : string :=
  match s with
  | EmptyString => EmptyString
  | String c s' => if is_space c then TrimLeftSpace s' else s
  end.

Fixpoint TrimRightSpace (s : string) : string :=
  match s with
  | EmptyString => EmptyString
  | String c s' =>
      match TrimRightSpace s' with
      | EmptyString => if is_space c then EmptyString else String c EmptyString
      | r => String c r
      end
  end.

Definition TrimSpace (s : string) : string := TrimRightSpace (TrimLeftSpace s).

End strings.

(** ** Results of fallible calls *)

(** The value, or the error with its message. *)
Record error := mkError { Error : string; IsNotExist : bool }.

Inductive result (A : Type) : Type :=
| Ok (a : A)
| Err (e : error).
Arguments Ok {A} a.
Arguments Err {A} e.

(** ** The world the program runs in *)

(** What the program does to the outside: text on standard output, a line of
    the [log] package, a child process run to completion. *)
Inductive effect :=
| Stdout (s : string)
| LogLine (s : string)
| Exec (name : string) (argv : list string).

(** An opened file as [bufio.Scanner] reads it: its lines, and the error the
    scanner ends with, if any. *)
Record File := mkFile { lines : list string; scanErr : option error }.

Module os.

Record World := mkWorld {
  Getwd : result string;
  UserHomeDir : result string;
  Open : string -> result File;
  (** [cmd.Run] of the transfer tool on an argument list *)
  Run : list string -> option error;
  (** [fsnotify.NewWatcher] and [watcher.Add] *)
  NewWatcher : option error;
  Add : string -> option error
}.

End os.

(** ** Go's [path/filepath] package on Unix *)

Module filepath.

Definition IsAbs (path : string) : bool := strings.HasPrefix path "/".

(** The elements of a path between separators. *)
Definition elements (path : string) : list string := strings.Split1 path slash.

(** One step of [Clean]: [st] is the stack of elements written so far,
    last one first.  An element [..] removes the element before it; when
    there is none to remove (or only [..] elements, which stay), it is kept
    in a relative path and dropped in a rooted one. *)
Definition clean_step (rooted : bool) (st : list string) (e : string) : list string :=
  if (e =? "") || (e =? ".") then st
  else if e =? ".." then
    match st with
    | top :: below => if top =? ".." then e :: st else below
    | [] => if rooted then [] else [e]
    end
  else e :: st.

Definition Clean (path : string) : string :=
  if path =? "" then "."
  else
    let rooted := IsAbs path in
    let st := fold_left (clean_step rooted) (elements path) [] in
    let out := (if rooted then "/" else "") ++ strings.Join (rev st) "/" in
    if out =? "" then "." else out.

(** [Join] of two elements: empty elements are ignored, the result is cleaned. *)
Definition Join2 (a b : string) : string :=
  if a =? "" then (if b =? "" then "" else Clean b)
  else if b =? "" then Clean a
  else Clean (a ++ "/" ++ b).

Fixpoint trim_trailing_slashes (path : string) : string :=
  match path with
  | EmptyString => EmptyString
  | String c rest =>
      match trim_trailing_slashes rest with
      | EmptyString => if Ascii.eqb c slash then EmptyString else String c EmptyString
      | r => String c r
      end
  end.

Definition Base (path : string) : string :=
  if path =? "" then "."
  else
    let p := trim_trailing_slashes path in
    let last_elem := last (elements p) "" in
    if last_elem =? "" then "/" else last_elem.

(** [Rel] walks the elements of the two cleaned paths; the element after a
    final separator is never walked. *)
Definition rel_elements (p : string) : list string :=
  if p =? "" then []
  else
    let es := elements p in
    if last es "." =? "" then removelast es else es.

(** The loop of [Rel]: skip the elements the two paths share.  Returns what
    is left of both and the base element the loop stopped on (empty when
    one of the paths ran out). *)
Fixpoint rel_skip (bs ts : list string) : list string * list string * string :=
  match bs, ts with
  | b :: bs', t :: ts' => if t =? b then rel_skip bs' ts' else (bs, ts, b)
  | _, _ => (bs, ts, "")
  end.

Definition rel_error (basepath targpath : string) : error :=
  mkError ("Rel: can't make " ++ targpath ++ " relative to " ++ basepath) false.

Definition Rel (basepath targpath : string) : result string :=
  let base := Clean basepath in
  let targ := Clean targpath in
  if targ =? base then Ok "."
  else
    let base := if base =? "." then "" else base in
    if negb (Bool.eqb (IsAbs base) (IsAbs targ)) then Err (rel_error basepath targpath)
    else
      let '(bs, ts, cur) := rel_skip (rel_elements base) (rel_elements targ) in
      if cur =? ".." then Err (rel_error basepath targpath)
      else
        match bs with
        | [] => Ok (strings.Join ts "/")
        | _ :: _ =>
            let ups := strings.Join (map (fun _ => "..") bs) "/" in
            match ts with
            | [] => Ok ups
            | _ :: _ => Ok (ups ++ "/" ++ strings.Join ts "/")
            end
        end.

(** *** [Match]: shell globs *)

Definition ErrBadPattern : error := mkError "syntax error in pattern" false.

(** A pattern byte, with the backslash escapes resolved: [scanChunk],
    [matchChunk] and [getEsc] all read a backslash together with the byte
    after it, and fail on a backslash that ends the pattern. *)
Inductive pchar :=
| Plain (c : ascii)
| Escaped (c : ascii)
| Dangling.

Fixpoint tokens (pattern : string) : list pchar :=
  match pattern with
  | EmptyString => []
  | String c rest =>
      if Ascii.eqb c backslash then
        match rest with
        | EmptyString => [Dangling]
        | String d rest' => Escaped d :: tokens rest'
        end
      else Plain c :: tokens rest
  end.

Definition is_plain (c : ascii) (t : pchar) : bool :=
  match t with
  | Plain d => Ascii.eqb d c
  | _ => false
  end.

(** [scanChunk], iterated over the whole pattern: each chunk with its
    leading-star flag.  [acc] holds the chunk being read, last byte first;
    a star outside a bracket range ends it. *)
Fixpoint scanChunks (p : list pchar) (star_seen inrange : bool) (acc : list pchar)
  : list (bool * list pchar) :=
  match p with
  | [] => if star_seen || negb (Nat.eqb (List.length acc) 0) then [(star_seen, rev acc)] else []
  | t :: p' =>
      if is_plain star t then
        match acc with
        | [] => scanChunks p' true false []
        | _ :: _ =>
            if inrange then scanChunks p' star_seen inrange (t :: acc)
            else (star_seen, rev acc) :: scanChunks p' true false []
        end
      else if is_plain "["%char t then scanChunks p' star_seen true (t :: acc)
      else if is_plain "]"%char t then scanChunks p' star_seen false (t :: acc)
      else scanChunks p' star_seen inrange (t :: acc)
  end.

(** [getEsc] on its first byte: the byte a range bound stands for. *)
Definition getEsc1 (t : pchar) : option ascii :=
  match t with
  | Plain c => if Ascii.eqb c "-"%char || Ascii.eqb c "]"%char then None else Some c
  | Escaped c => Some c
  | Dangling => None
  end.

Definition byte_le (a b : ascii) : bool := (nat_of_ascii a <=? nat_of_ascii b)%nat.

Definition head_byte (s : string) : ascii :=
  match s with
  | EmptyString => zero
  | String c _ => c
  end.

Definition tail_bytes (s : string) : string :=
  match s with
  | EmptyString => EmptyString
  | String _ s' => s'
  end.

(** [matchChunk]: [Ok (Some rest)] when the chunk matches a prefix of [s],
    [Ok None] when it does not, an error when the chunk is malformed (the
    chunk is read to its end even after the match has failed).
    [classLoop] is the loop over the ranges of a bracket expression, [r]
    the byte of [s] it is matched against. *)
Fixpoint matchChunk (chunk : list pchar) (s : string) (failed : bool)
  : result (option string) :=
  match chunk with
  | [] => if failed then Ok None else Ok (Some s)
  | t :: chunk' =>
      let failed := failed || (s =? "") in
      match t with
      | Dangling => Err ErrBadPattern
      | Escaped c =>
          matchChunk chunk' (if failed then s else tail_bytes s)
            (failed || negb (Ascii.eqb c (head_byte s)))
      | Plain c =>
          if Ascii.eqb c "["%char then
            let r := if failed then zero else head_byte s in
            let s' := if failed then s else tail_bytes s in
            match chunk' with
            | t' :: chunk'' =>
                if is_plain "^"%char t'
                then classLoop chunk'' r true false 0 s' failed
                else classLoop chunk' r false false 0 s' failed
            | [] => classLoop chunk' r false false 0 s' failed
            end
          else if Ascii.eqb c "?"%char then
            matchChunk chunk' (if failed then s else tail_bytes s)
              (failed || Ascii.eqb (head_byte s) slash)
          else
            matchChunk chunk' (if failed then s else tail_bytes s)
              (failed || negb (Ascii.eqb c (head_byte s)))
      end
  end
with classLoop (chunk : list pchar) (r : ascii) (negated matched : bool) (nrange : nat)
               (s : string) (failed : bool) : result (option string) :=
  match chunk with
  | [] => Err ErrBadPattern
  | t :: chunk1 =>
      if is_plain "]"%char t && negb (Nat.eqb nrange 0)
      then matchChunk chunk1 s (failed || Bool.eqb matched negated)
      else
        match getEsc1 t, chunk1 with
        | None, _ => Err ErrBadPattern
        | Some _, [] => Err ErrBadPattern
        | Some lo, t1 :: chunk2 =>
            if is_plain "-"%char t1 then
              match chunk2 with
              | [] => Err ErrBadPattern
              | t2 :: chunk3 =>
                  match getEsc1 t2, chunk3 with
                  | None, _ => Err ErrBadPattern
                  | Some _, [] => Err ErrBadPattern
                  | Some hi, _ :: _ =>
                      classLoop chunk3 r negated
                        (matched || (byte_le lo r && byte_le r hi)) (S nrange) s failed
                  end
              end
            else
              classLoop chunk1 r negated
                (matched || (byte_le lo r && byte_le r lo)) (S nrange) s failed
        end
  end.

(** The check made before [Match] answers false: the chunks left must be
    well-formed. *)
Fixpoint check_rest (cs : list (bool * list pchar)) : result bool :=
  match cs with
  | [] => Ok false
  | (_, chunk) :: cs' =>
      match matchChunk chunk "" false with
      | Err e => Err e
      | Ok _ => check_rest cs'
      end
  end.

Definition is_nil {A} (l : list A) : bool :=
  match l with [] => true | _ :: _ => false end.

Fixpoint matchChunks (cs : list (bool * list pchar)) (name : string) : result bool :=
  match cs with
  | [] => Ok (name =? "")
  | (star_seen, chunk) :: rest =>
      if star_seen && is_nil chunk then Ok (negb (strings.Contains name "/"))
      else
        let try_star :=
          (fix search (nm : string) : result bool :=
             match nm with
             | EmptyString => check_rest rest
             | String c nm' =>
                 if Ascii.eqb c slash then check_rest rest
                 else
                   match matchChunk chunk nm' false with
                   | Ok (Some t) =>
                       if is_nil rest && negb (t =? "") then search nm'
                       else matchChunks rest t
                   | Ok None => search nm'
                   | Err e => Err e
                   end
             end) in
        match matchChunk chunk name false with
        | Err e => Err e
        | Ok (Some t) =>
            if (t =? "") || negb (is_nil rest) then matchChunks rest t
            else if star_seen then try_star name else check_rest rest
        | Ok None => if star_seen then try_star name else check_rest rest
        end
  end.

Definition Match (pattern name : string) : result bool :=
  matchChunks (scanChunks (tokens pattern) false false []) name.

(** [Abs] asks the system for the working directory when the path is
    relative. *)
Definition Abs (w : os.World) (path : string) : result string :=
  if IsAbs path then Ok (Clean path)
  else
    match os.Getwd w with
    | Err e => Err e
    | Ok wd => Ok (Join2 wd path)
    end.

End filepath.

(** ** The program monad: output so far, and how the call ended *)

(** The watcher once started: the arguments of [startWatcher], which the
    event loop keeps for the rest of the session. *)
Record Watcher := mkWatcher {
  w_source : string;
  w_destination : string;
  w_exclusions : list string;
  w_changeList : list string;
  w_compress : bool;
  w_verbose : bool;
  w_progress : bool;
  w_delete : bool
}.

Inductive step (A : Type) : Type :=
| Ret (a : A)              (* the call returned *)
| Exit (code : Z)          (* os.Exit *)
| Forever (wt : Watcher).  (* select {} with the event loop running *)
Arguments Ret {A} a.
Arguments Exit {A} code.
Arguments Forever {A} wt.

Definition io (A : Type) : Type := (list effect * step A)%type.

Definition ret {A} (a : A) : io A := ([], Ret a).

Definition bind {A B} (m : io A) (k : A -> io B) : io B :=
  match m with
  | (out, Ret a) => let (out', r) := k a in ((out ++ out')%list, r)
  | (out, Exit c) => (out, Exit c)
  | (out, Forever wt) => (out, Forever wt)
  end.

Notation "x <- m ;; k" := (bind m (fun x => k))
  (at level 61, m at next level, right associativity).
Notation "m ;;; k" := (bind m (fun _ => k))
  (at level 61, right associativity).

Definition emit (out : list effect) : io unit := (out, Ret tt).
Definition os_Exit {A} (code : Z) : io A := ([], Exit code).

Module fmt.
Definition Print (s : string) : io unit := emit [Stdout s].
Definition Println (s : string) : io unit := emit [Stdout (s ++ nl)].
End fmt.

Definition output {A} (m : io A) : list effect := fst m.
Definition outcome {A} (m : io A) : step A := snd m.

(** The child processes a run started, in order. *)
Fixpoint invocations (out : list effect) : list (list string) :=
  match out with
  | [] => []
  | Exec _ argv :: out' => argv :: invocations out'
  | _ :: out' => invocations out'
  end.

(** ** main.go *)

Record syncEndpoint := mkEndpoint {
  name : string;
  rsyncPath : string;
  isLocal : bool;
  localPath : string
}.

Definition formatRemotePath (host relativePath : string) : string :=
  let trimmed := relativePath in
  let trimmed := if trimmed =? "" then "." else trimmed in
  let trimmed := strings.TrimPrefix trimmed "./" in
  let trimmed := strings.TrimPrefix trimmed "/" in
  let remoteBase := "~" in
  if (trimmed =? ".") || (trimmed =? "") then host ++ ":" ++ remoteBase ++ "/"
  else
    let remoteBase := if negb (trimmed =? "") then remoteBase ++ "/" ++ trimmed else remoteBase in
    host ++ ":" ++ remoteBase.

(** The test [newEndpoint] makes on its argument: the local machine. *)
Definition denotesLocal (arg : string) : bool :=
  (arg =? "") || (arg =? ".") || strings.HasPrefix arg "./"
  || strings.HasPrefix arg "../" || filepath.IsAbs arg.

Definition newEndpoint (w : os.World) (arg cwd relativePath : string) : result syncEndpoint :=
  let cleanCwd := filepath.Clean cwd in
  if denotesLocal arg then
    let resolved :=
      if negb (arg =? "") && negb (arg =? ".") then
        match filepath.Abs w arg with
        | Err e => Err e
        | Ok absPath => Ok (filepath.Clean absPath)
        end
      else Ok cleanCwd in
    match resolved with
    | Err e => Err e
    | Ok localPath => Ok (mkEndpoint localPath localPath true localPath)
    end
  else
    let remotePath := formatRemotePath arg relativePath in
    Ok (mkEndpoint remotePath remotePath false "").

(** The lines [loadIgnoreFile] keeps, in file order. *)
Fixpoint scanLines (ls : list string) : list string :=
  match ls with
  | [] => []
  | text :: rest =>
      let line := strings.TrimSpace text in
      if (line =? "") || strings.HasPrefix line "#" then scanLines rest
      else line :: scanLines rest
  end.

Definition loadIgnoreFile (w : os.World) (dir : string) : result (list string) :=
  let ignoreFilePath := filepath.Join2 dir ".ssyncignore" in
  match os.Open w ignoreFilePath with
  | Err e => if IsNotExist e then Ok [] else Err e
  | Ok file =>
      let exclusions := scanLines (lines file) in
      match scanErr file with
      | Some e => Err e
      | None => Ok exclusions
      end
  end.

(** The argument list [runRsync] builds, statement by statement. *)
Definition rsyncArgs (source destination : string) (exclusions : list string)
  (compress verbose progress delete : bool) : list string :=
  let flags := "-a" in
  let flags := if verbose then flags ++ "v" else flags in
  let flags := if compress then flags ++ "z" else flags in
  let args := [flags] in
  let args := if progress then (args ++ ["--progress"])%list else args in
  let args := if delete then (args ++ ["--delete"])%list else args in
  let args := fold_left (fun acc exclude => (acc ++ ["--exclude"; exclude])%list) exclusions args in
  (args ++ [(source ++ "/")%string; destination])%list.

Definition runRsync (w : os.World) (source destination : string) (exclusions : list string)
  (compress verbose progress delete : bool) : list effect :=
  let args := rsyncArgs source destination exclusions compress verbose progress delete in
  Exec "rsync" args ::
  match os.Run w args with
  | Some e => [Stdout ("Error: rsync command failed: " ++ Error e ++ nl)]
  | None => [Stdout ("Sync completed successfully." ++ nl)]
  end.

(** *** File-system events *)

Module fsnotify.

(** [Op] is a bit mask. *)
Definition Create : N := 1.
Definition Write : N := 2.
Definition Remove : N := 4.
Definition Rename : N := 8.
Definition Chmod : N := 16.

Record Event := mkEvent { Name : string; Op : N }.

Definition Has (o flag : N) : bool := N.eqb (N.land o flag) flag.

Definition Op_String (o : N) : string :=
  let b := "" in
  let b := if Has o Create then b ++ "|CREATE" else b in
  let b := if Has o Remove then b ++ "|REMOVE" else b in
  let b := if Has o Write then b ++ "|WRITE" else b in
  let b := if Has o Rename then b ++ "|RENAME" else b in
  let b := if Has o Chmod then b ++ "|CHMOD" else b in
  if b =? "" then "[no events]" else strings.drop 1 b.

End fsnotify.

Fixpoint isWatchedEvent (event : fsnotify.Event) (changeList : list string) : bool :=
  match changeList with
  | [] => false
  | changeType :: rest =>
      let kind := strings.ToLower changeType in
      let hit (op : N) := if N.eqb (fsnotify.Op event) op then true else isWatchedEvent event rest in
      if kind =? "write" then hit fsnotify.Write
      else if kind =? "remove" then hit fsnotify.Remove
      else if kind =? "chmod" then hit fsnotify.Chmod
      else if kind =? "create" then hit fsnotify.Create
      else if kind =? "rename" then hit fsnotify.Rename
      else isWatchedEvent event rest
  end.

(** *** isExcluded *)

(** The loop of [isExcluded] over the patterns, with what it prints. *)
Fixpoint matchExclusions (relPath : string) (exclusions : list string) : list effect * bool :=
  match exclusions with
  | [] => ([], false)
  | pattern :: rest =>
      let rooted_or_name :=
        if strings.HasPrefix pattern "/" && (relPath =? strings.TrimPrefix pattern "/")
        then ([], true)
        else if filepath.Base relPath =? pattern then ([], true)
        else matchExclusions relPath rest in
      if strings.Contains pattern "*" then
        match filepath.Match pattern (filepath.Base relPath) with
        | Err _ =>
            let (out, r) := matchExclusions relPath rest in
            (Stdout ("Error: Invalid pattern " ++ pattern ++ nl) :: out, r)
        | Ok matched => if matched then ([], true) else rooted_or_name
        end
      else rooted_or_name
  end.

Definition isExcluded (w : os.World) (path : string) (exclusions : list string)
  : list effect * bool :=
  match os.Getwd w with
  | Err e =>
      ([Stdout ("Error: Unable to get current working directory: " ++ Error e ++ nl)], false)
  | Ok cwd =>
      match filepath.Rel cwd path with
      | Err e => ([Stdout ("Error: Unable to make path relative: " ++ Error e ++ nl)], false)
      | Ok relPath =>
          let (out, r) := matchExclusions relPath exclusions in
          (LogLine ("relPath: " ++ relPath ++ ", cwd: " ++ cwd) :: out, r)
      end
  end.

(** *** startWatcher: setting up *)

Definition startWatcher (w : os.World) (source destination : string)
  (exclusions changeList : list string) (compress verbose progress delete : bool) : io unit :=
  match os.NewWatcher w with
  | Some e =>
      fmt.Print ("Error: Unable to create file watcher: " ++ Error e ++ nl) ;;; os_Exit 1
  | None =>
      match os.Add w source with
      | Some e =>
          fmt.Print ("Error: Unable to watch directory: " ++ Error e ++ nl) ;;; os_Exit 1
      | None =>
          ([], Forever (mkWatcher source destination exclusions changeList
                          compress verbose progress delete))
      end
  end.

(** *** main *)

(** The command line after [flag.Parse]: the flag values and the positional
    arguments. *)
Record CommandLine := mkCommandLine {
  watch : bool;
  changes : string;
  compressVar : bool;
  deleteVar : bool;
  progressVar : bool;
  verboseVar : bool;
  Args : list string
}.

(** The values the flag variables hold before [flag.Parse] has run. *)
Definition flagDefaults : CommandLine :=
  mkCommandLine true "write,remove,chmod,rename" true false true true [].

Definition usage : string :=
  strings.Join
    [ "ssync by Alex Ellis, Copyright 2025";
      "";
      "Usage: ssync [-watch=false] [-changes " ++ dq ++ "write,delete" ++ dq
        ++ "] [-compress=false] [-progress=false] [-delete]";
      "       ssync <destination>";
      "       ssync . <destination>";
      "       ssync <destination> .";
      "";
      "Use " ++ dq ++ "." ++ dq ++ " to represent the current directory. Example flows:";
      "  ssync bq         # same as " ++ dq ++ "ssync . bq" ++ dq ++ " (push local -> remote)";
      "  ssync . bq       # explicit push local -> remote";
      "  ssync bq .       # pull remote -> local";
      "";
      "Use " ++ dq ++ "--delete" ++ dq
        ++ " to mirror the destination (removes files missing from the source)";
      "";
      "To ignore large files i.e. binaries, create a .ssyncignore file";
      "";
      "[Push mode] The remote folder is created automatically if it doesn't exist";
      "already";
      "";
      "[Pull mode] You need to create the folder locally, and cd into it";
      "before running ssync.";
      "";
      "Learn more https://github.com/alexellis/ssync";
      "" ] nl.

(** A fallible call whose error ends the program with status 1. *)
Definition orExit {A} (r : result A) (what : string) : io A :=
  match r with
  | Ok a => ret a
  | Err e => fmt.Print ("Error: " ++ what ++ ": " ++ Error e ++ nl) ;;; os_Exit 1
  end.

Definition noLocalEndpoint : string :=
  "Error: Either the source or destination must be the local machine.".
Definition watchNeedsLocalSource : string :=
  "Watch mode is only available when syncing from the local machine. Skipping watcher.".

(** The positional arguments: one names the destination, the source being
    the current directory; two name the source and the destination. *)
Definition sourceArg (args : list string) : string :=
  if Nat.eqb (List.length args) 2 then nth 0 args "" else ".".
Definition destArg (args : list string) : string :=
  if Nat.eqb (List.length args) 2 then nth 1 args "" else nth 0 args "".

(** [main] once both endpoints are resolved: the check on the pair, the
    ignore file, the initial transfer, the watcher.  The four options were
    read from the flag variables before [flag.Parse] was called. *)
Definition synchronize (cl : CommandLine) (w : os.World) (cwd : string)
  (sourceEndpoint destEndpoint : syncEndpoint) : io unit :=
  let compress := compressVar flagDefaults in
  let progress := progressVar flagDefaults in
  let delete := deleteVar flagDefaults in
  let verbose := verboseVar flagDefaults in
  (if negb (isLocal sourceEndpoint) && negb (isLocal destEndpoint)
   then fmt.Println noLocalEndpoint ;;; os_Exit 1 else ret tt) ;;;
  let ignoreBase :=
    if isLocal sourceEndpoint then localPath sourceEndpoint
    else if isLocal destEndpoint then localPath destEndpoint
    else cwd in
  exclusions <- orExit (loadIgnoreFile w ignoreBase) "Unable to load .ssyncignore file" ;;
  fmt.Print ("ssync - Copyright Alex Ellis 2024" ++ nl ++ nl ++ name sourceEndpoint ++ nl
             ++ "=>" ++ nl ++ name destEndpoint ++ nl ++ nl) ;;;
  emit (runRsync w (rsyncPath sourceEndpoint) (rsyncPath destEndpoint) exclusions
          compress verbose progress delete) ;;;
  if watch cl then
    if isLocal sourceEndpoint then
      fmt.Print (nl ++ "Watching " ++ localPath sourceEndpoint ++ " for changes..." ++ nl) ;;;
      let changeList :=
        map (fun c => strings.ToUpper (strings.TrimSpace c))
            (strings.Split1 (changes cl) ","%char) in
      startWatcher w (localPath sourceEndpoint) (rsyncPath destEndpoint) exclusions changeList
        compress verbose progress delete
    else fmt.Println watchNeedsLocalSource
  else fmt.Println "Sync completed. Watch mode disabled.".

(** [main] from the line after [flag.Parse()]: [cl] is what the parse
    returned.  The exits of the parse itself (a flag that is not defined, a
    request for help) come before and are not modelled. *)
Definition main (cl : CommandLine) (w : os.World) : io unit :=
  let args := Args cl in
  (if Nat.eqb (List.length args) 0 || Nat.ltb 2 (List.length args)
   then fmt.Print usage ;;; os_Exit 1 else ret tt) ;;;
  cwd <- orExit (os.Getwd w) "Unable to get current working directory" ;;
  homeDir <- orExit (os.UserHomeDir w) "Unable to get user's home directory" ;;
  relativePath <- orExit (filepath.Rel homeDir cwd) "Unable to compute relative path" ;;
  sourceEndpoint <- orExit (newEndpoint w (sourceArg args) cwd relativePath)
                      "Unable to determine source" ;;
  destEndpoint <- orExit (newEndpoint w (destArg args) cwd relativePath)
                    "Unable to determine destination" ;;
  synchronize cl w cwd sourceEndpoint destEndpoint.

(** *** startWatcher: the event loop and the debounce timer

    Time is in nanoseconds, as [time.Duration].  The Go runtime keeps the
    timers armed by [time.AfterFunc]; a timer leaves that set when it fires
    or when [Stop] is called on it.  The loop handles one message at a time,
    at the instant it is received; a timer whose deadline has been reached by
    then has fired before the message is handled. *)

Definition debounceDelay : Z := 2 * 1000000000.

Record Loop := mkLoop {
  syncTimer : option nat;   (* the variable syncTimer: handle of the last timer made *)
  armed : list (nat * Z);   (* runtime: handle and deadline of each armed timer *)
  fresh : nat               (* runtime: the next handle *)
}.

Definition idle : Loop := mkLoop None [] 0.

Inductive message :=
| FsEvent (event : fsnotify.Event)   (* from watcher.Events *)
| FsError (e : error).               (* from watcher.Errors *)

Definition stamp (t : Z) (out : list effect) : list (Z * effect) := map (pair t) out.

Definition timer_Stop (h : nat) (timers : list (nat * Z)) : list (nat * Z) :=
  filter (fun tm => negb (Nat.eqb (fst tm) h)) timers.

Section EventLoop.

Variable w : os.World.
Variable wt : Watcher.

(** The function given to [time.AfterFunc]. *)
Definition deferred : list effect :=
  runRsync w (w_source wt) (w_destination wt) (w_exclusions wt)
    (w_compress wt) (w_verbose wt) (w_progress wt) (w_delete wt).

(** The timers due at [now] fire, each at its deadline. *)
Definition expire (now : Z) (st : Loop) : list (Z * effect) * Loop :=
  let due := filter (fun tm => snd tm <=? now)%Z (armed st) in
  let later := filter (fun tm => negb (snd tm <=? now)%Z) (armed st) in
  (flat_map (fun tm => stamp (snd tm) deferred) due,
   mkLoop (syncTimer st) later (fresh st)).

(** One turn of the [select] loop, on a message received at [now]. *)
Definition receive (now : Z) (msg : message) (st : Loop) : list (Z * effect) * Loop :=
  let (fired, st) := expire now st in
  match msg with
  | FsError e =>
      ((fired ++ stamp now [Stdout ("Error watching files: " ++ Error e ++ nl)])%list, st)
  | FsEvent event =>
      if negb (isWatchedEvent event (w_changeList wt)) then (fired, st)
      else
        let (said, excluded) := isExcluded w (fsnotify.Name event) (w_exclusions wt) in
        if excluded then ((fired ++ stamp now said)%list, st)
        else
          let name := strings.TrimPrefix (fsnotify.Name event) (w_source wt) in
          let name := strings.TrimPrefix name "/" in
          let line :=
            Stdout ("[" ++ strings.ToLower (fsnotify.Op_String (fsnotify.Op event))
                      ++ "] " ++ name ++ nl) in
          let timers :=
            match syncTimer st with
            | Some h => timer_Stop h (armed st)
            | None => armed st
            end in
          let h := fresh st in
          ((fired ++ stamp now (said ++ [line]))%list,
           mkLoop (Some h) (timers ++ [(h, now + debounceDelay)%Z])%list (S h))
  end.

Fixpoint run (msgs : list (Z * message)) (st : Loop) : list (Z * effect) * Loop :=
  match msgs with
  | [] => ([], st)
  | (now, msg) :: rest =>
      let (out, st1) := receive now msg st in
      let (out', st2) := run rest st1 in
      ((out ++ out')%list, st2)
  end.

(** What has happened by time [T] when [msgs] is all the loop receives.
    Every message of [msgs] is handled, then the timer is let expire at [T]:
    the list is the program's when the messages come in order of time and
    none comes after [T]. *)
Definition history (msgs : list (Z * message)) (T : Z) : list (Z * effect) :=
  let (out, st) := run msgs idle in
  (out ++ fst (expire T st))%list.

(** An event that passes both filters of the loop. *)
Definition qualifies (event : fsnotify.Event) : Prop :=
  isWatchedEvent event (w_changeList wt) = true /\
  snd (isExcluded w (fsnotify.Name event) (w_exclusions wt)) = false.

End EventLoop.

(** The transfer invocations of a timed history, with the time of each. *)
Fixpoint syncs (out : list (Z * effect)) : list (Z * list string) :=
  match out with
  | [] => []
  | (t, Exec _ argv) :: out' => (t, argv) :: syncs out'
  | _ :: out' => syncs out'
  end.

(** Each event of a burst arrives before the window opened by the one before
    it has elapsed. *)
Fixpoint burst_from (t : Z) (later : list Z) : Prop :=
  match later with
  | [] => True
  | t' :: rest => (t <= t' < t + debounceDelay)%Z /\ burst_from t' rest
  end.

(** ** Notions the properties are stated with *)

(** The two literal rules of [isExcluded]: a pattern that starts with a
    separator against the whole relative path, any pattern against the last
    element. *)
Definition literalRules (relPath pattern : string) : bool :=
  (strings.HasPrefix pattern "/" && (relPath =? strings.TrimPrefix pattern "/"))
  || (filepath.Base relPath =? pattern).

(** What one turn of the loop of [isExcluded] decides for its pattern. *)
Definition patternExcludes (relPath pattern : string) : bool :=
  if strings.Contains pattern "*" then
    match filepath.Match pattern (filepath.Base relPath) with
    | Err _ => false
    | Ok matched => matched || literalRules relPath pattern
    end
  else literalRules relPath pattern.

(** A pattern that holds a star is read as a glob; it is skipped when
    [Match] rejects it. *)
Definition notRejected (relPath pattern : string) : Prop :=
  strings.Contains pattern "*" = true ->
  exists matched, filepath.Match pattern (filepath.Base relPath) = Ok matched.

(** A pattern excludes a relative path under one of the rules the loop of
    [isExcluded] applies to it: the glob rule for a pattern that holds a
    star, the rooted rule and the name rule for every pattern that [Match]
    has not rejected, a star pattern included. *)
Inductive excludes (relPath pattern : string) : Prop :=
| by_glob :
    strings.Contains pattern "*" = true ->
    filepath.Match pattern (filepath.Base relPath) = Ok true ->
    excludes relPath pattern
| by_root :
    notRejected relPath pattern ->
    strings.HasPrefix pattern "/" = true ->
    relPath = strings.TrimPrefix pattern "/" ->
    excludes relPath pattern
| by_name :
    notRejected relPath pattern ->
    filepath.Base relPath = pattern ->
    excludes relPath pattern.

(** A wildcard character in the wide sense: a star, a question mark or the
    opening of a character class. *)
Definition hasWildcard (pattern : string) : bool :=
  strings.Contains pattern "*" || strings.Contains pattern "?"
  || strings.Contains pattern "[".

(** The rule of a pattern as the specification words it, one rule per kind
    of pattern: a pattern with a wildcard character is matched as a glob
    against the last element and excludes nothing when it is invalid; else a
    pattern that starts with a separator must equal, without it, the whole
    relative path; else the pattern must equal the last element. *)
Definition specExcludes (relPath pattern : string) : bool :=
  if hasWildcard pattern then
    match filepath.Match pattern (filepath.Base relPath) with
    | Ok matched => matched
    | Err _ => false
    end
  else if strings.HasPrefix pattern "/" then relPath =? strings.TrimPrefix pattern "/"
  else filepath.Base relPath =? pattern.

(** A change name made of bytes below 128, on which Go's rune-wise
    [ToLower] and [ToUpper] are the byte-wise ones. *)
Fixpoint isASCII (s : string) : bool :=
  match s with
  | EmptyString => true
  | String c rest => (nat_of_ascii c <? 128)%nat && isASCII rest
  end.

Fixpoint endsWithSlash (s : string) : bool :=
  match s with
  | EmptyString => false
  | String c EmptyString => Ascii.eqb c slash
  | String _ rest => endsWithSlash rest
  end.

(** ** Sample worlds and command lines *)

Definition noIgnoreFile : string -> result File :=
  fun _ => Err (mkError "open .ssyncignore: no such file or directory" true).

Definition unreadableIgnoreFile : string -> result File :=
  fun _ => Err (mkError "open .ssyncignore: permission denied" false).

(** Working directory [/home/u/proj] under the home directory [/home/u]; no
    ignore file; rsync and the notifier work. *)
Definition projWorld : os.World :=
  os.mkWorld (Ok "/home/u/proj") (Ok "/home/u") noIgnoreFile (fun _ => None) None (fun _ => None).

(** The same, with an ignore file that exists and cannot be read. *)
Definition deniedWorld : os.World :=
  os.mkWorld (Ok "/home/u/proj") (Ok "/home/u") unreadableIgnoreFile (fun _ => None) None
    (fun _ => None).

(** The same, with an ignore file in the sub-directory [sub] only. *)
Definition subWorld : os.World :=
  os.mkWorld (Ok "/home/u/proj") (Ok "/home/u")
    (fun path => if path =? "/home/u/proj/sub/.ssyncignore"
                 then Ok (mkFile ["# private"; "/secret"] None)
                 else noIgnoreFile path)
    (fun _ => None) None (fun _ => None).

Definition commandLine (watching : bool) (args : list string) : CommandLine :=
  mkCommandLine watching "write,remove,chmod,rename" true false true true args.

Definition sampleExclusions : list string := ["*.swp"; "/secret"; "bin/"].

Definition projWatcher : Watcher :=
  mkWatcher "/home/u/proj" "bq:~/proj" sampleExclusions ["WRITE"; "REMOVE"; "CHMOD"; "RENAME"]
    true true true false.

Definition second : Z := 1000000000.

Definition sampleBurst : list (Z * fsnotify.Event) :=
  [ (0%Z, fsnotify.mkEvent "/home/u/proj/main.go" fsnotify.Write);
    ((1 * second + 500000000)%Z, fsnotify.mkEvent "/home/u/proj/go.mod" fsnotify.Chmod);
    ((3 * second)%Z, fsnotify.mkEvent "/home/u/proj/sub/secret" fsnotify.Write) ].

(** The messages of a burst of events, each with its arrival time. *)
Definition burstMessages (burst : list (Z * fsnotify.Event)) : list (Z * message) :=
  map (fun te => (fst te, FsEvent (snd te))) burst.

(** The loop has one timer armed, the one [syncTimer] refers to, due at [d]. *)
Definition pending (st : Loop) (d : Z) : Prop :=
  exists h, syncTimer st = Some h /\ armed st = [(h, d)].

(** The loop has nothing armed, or only the timer [syncTimer] refers to. *)
Definition oneSlot (st : Loop) : Prop :=
  armed st = [] \/ exists d, pending st d.

(** A command line with a pattern list of its own, for the sub-directory. *)
Definition subWatcher : Watcher :=
  mkWatcher "/home/u/proj/sub" "bq:~/proj" ["/secret"]
    ["WRITE"; "REMOVE"; "CHMOD"; "RENAME"] true true true false.

(** *** Cleaned paths, for the properties of [Rel] *)

Fixpoint slashFree (s : string) : bool :=
  match s with
  | EmptyString => true
  | String c rest => negb (Ascii.eqb c slash) && slashFree rest
  end.

(** A path element: not empty, no separator in it. *)
Definition isElement (e : string) : Prop := e <> "" /\ slashFree e = true.

(** An element [Clean] keeps. *)
Definition isKept (e : string) : Prop := isElement e /\ e <> ".".

(** The path [Clean] writes for a stack of elements. *)
Definition pathOf (rooted : bool) (es : list string) : string :=
  if rooted then "/" ++ strings.Join es "/"
  else match es with
       | [] => "."
       | _ :: _ => strings.Join es "/"
       end.

(** *** Notions for the further properties *)

(** The operation a change name of the list stands for, once in lower case. *)
Definition kindOp (kind : string) : option N :=
  if kind =? "write" then Some fsnotify.Write
  else if kind =? "remove" then Some fsnotify.Remove
  else if kind =? "chmod" then Some fsnotify.Chmod
  else if kind =? "create" then Some fsnotify.Create
  else if kind =? "rename" then Some fsnotify.Rename
  else None.

(** A line of the ignore file, trimmed, that is kept as a pattern. *)
Definition isPatternLine (line : string) : bool :=
  negb (line =? "") && negb (strings.HasPrefix line "#").

(** The deadlines reached between the events of a sequence: the timer armed
    at [t] fires when the next event comes no sooner than one delay later. *)
Fixpoint firedBetween (t : Z) (later : list Z) : list Z :=
  match later with
  | [] => []
  | t' :: rest =>
      ((if (t + debounceDelay <=? t')%Z then [(t + debounceDelay)%Z] else [])
         ++ firedBetween t' rest)%list
  end.

(** The deadlines of the armed timers that are due at [now]. *)
Definition dueAt (st : Loop) (now : Z) : list Z :=
  map snd (filter (fun tm => snd tm <=? now)%Z (armed st)).

(** A world with another transfer tool, a command line with other
    positional arguments or other option flags. *)
Definition withRun (w : os.World) (run : list string -> option error) : os.World :=
  os.mkWorld (os.Getwd w) (os.UserHomeDir w) (os.Open w) run (os.NewWatcher w) (os.Add w).

Definition withArgs (cl : CommandLine) (args : list string) : CommandLine :=
  mkCommandLine (watch cl) (changes cl) (compressVar cl) (deleteVar cl) (progressVar cl)
    (verboseVar cl) args.

Definition withOptions (cl : CommandLine) (compress delete progress verbose : bool)
  : CommandLine :=
  mkCommandLine (watch cl) (changes cl) compress delete progress verbose (Args cl).

(** The message of a setup step that failed. *)
Definition setupError (what : string) (e : error) : list effect :=
  [Stdout ("Error: " ++ what ++ ": " ++ Error e ++ nl)].

(** The event loop's two filters as one test. *)
Definition qualifiesb (w : os.World) (wt : Watcher) (msg : message) : bool :=
  match msg with
  | FsError _ => false
  | FsEvent event =>
      isWatchedEvent event (w_changeList wt)
      && negb (snd (isExcluded w (fsnotify.Name event) (w_exclusions wt)))
  end.

(** Arrival times in order, none after [T]. *)
Fixpoint inOrderUpTo (t : Z) (times : list Z) (T : Z) : Prop :=
  match times with
  | [] => (t <= T)%Z
  | t' :: rest => (t <= t')%Z /\ inOrderUpTo t' rest T
  end.

(** A world where rsync fails, one without a notifier. *)
Definition failingRsyncWorld : os.World :=
  withRun projWorld (fun _ => Some (mkError "exit status 23" false)).

Definition noNotifierWorld : os.World :=
  os.mkWorld (Ok "/home/u/proj") (Ok "/home/u") noIgnoreFile (fun _ => None)
    (Some (mkError "too many open files" false)) (fun _ => None).

Definition ignoreFileWorld : os.World :=
  os.mkWorld (Ok "/home/u/proj") (Ok "/home/u")
    (fun _ => Ok (mkFile ["# build output"; "  bin/  "; ""; "*.swp"; "   # editor"; "/secret"]
                    None))
    (fun _ => None) None (fun _ => None).

(** A directory or file name: an element other than the dot and the double
    dot. *)
Definition isName (e : string) : Prop := isKept e /\ e <> "..".

(** The transfer a fired timer starts, with the time it starts at. *)
Definition transferAt (wt : Watcher) (d : Z) : Z * list string :=
  (d, rsyncArgs (w_source wt) (w_destination wt) (w_exclusions wt)
        (w_compress wt) (w_verbose wt) (w_progress wt) (w_delete wt)).

(** The transfers started from the state [st] on: while the messages are
    handled, then up to time [T]. *)
Definition syncsFrom (w : os.World) (wt : Watcher) (st : Loop) (msgs : list (Z * message))
  (T : Z) : list (Z * list string) :=
  (syncs (fst (run w wt msgs st))
     ++ syncs (fst (expire w wt T (snd (run w wt msgs st)))))%list.

(** A byte that stands for itself in a glob pattern. *)
Definition isLiteralByte (c : ascii) : bool :=
  negb (Ascii.eqb c star) && negb (Ascii.eqb c "?"%char) && negb (Ascii.eqb c "["%char)
  && negb (Ascii.eqb c backslash).

Fixpoint isLiteral (s : string) : bool :=
  match s with
  | EmptyString => true
  | String c rest => isLiteralByte c && isLiteral rest
  end.

Fixpoint plainTokens (s : string) : list filepath.pchar :=
  match s with
  | EmptyString => []
  | String c rest => filepath.Plain c :: plainTokens rest
  end.

(** [endsWith s suffix]: [s] ends with [suffix]. *)
Fixpoint endsWith (s suffix : string) : bool :=
  (s =? suffix) ||
  match s with
  | EmptyString => false
  | String _ rest => endsWith rest suffix
  end.

(** * Properties *)

(** ** The program monad *)

Lemma bind_ret {A B} (a : A) (k : A -> io B) : bind (ret a) k = k a.
Proof. unfold bind, ret. destruct (k a); reflexivity. Qed.

Lemma bind_emit {B} (out : list effect) (k : unit -> io B) :
  bind (emit out) k = ((out ++ output (k tt))%list, outcome (k tt)).
Proof. unfold bind, emit, output, outcome. destruct (k tt); reflexivity. Qed.

Lemma bind_exit {A B} (out : list effect) (code : Z) (k : A -> io B) :
  bind (out, Exit code) k = (out, Exit code).
Proof. reflexivity. Qed.

Lemma orExit_ok {A} (a : A) (what : string) : orExit (Ok a) what = ret a.
Proof. reflexivity. Qed.

Lemma orExit_err {A} (e : error) (what : string) :
  @orExit A (Err e) what = ([Stdout ("Error: " ++ what ++ ": " ++ Error e ++ nl)], Exit 1%Z).
Proof. reflexivity. Qed.

Lemma invocations_app (out out' : list effect) :
  invocations (out ++ out') = (invocations out ++ invocations out')%list.
Proof.
  induction out as [| e out IH]; simpl; [reflexivity |].
  destruct e; simpl; rewrite IH; reflexivity.
Qed.

(** ** runRsync *)

Lemma exclude_arguments (exclusions args : list string) :
  fold_left (fun acc exclude => (acc ++ ["--exclude"; exclude])%list) exclusions args
  = (args ++ flat_map (fun exclude => ["--exclude"; exclude]) exclusions)%list.
Proof.
  revert args. induction exclusions as [| x xs IH]; intros args; simpl.
  - now rewrite app_nil_r.
  - rewrite IH, <- app_assoc. reflexivity.
Qed.

Lemma runRsync_invocations (w : os.World) (source destination : string)
  (exclusions : list string) (compress verbose progress delete : bool) :
  invocations (runRsync w source destination exclusions compress verbose progress delete)
  = [ rsyncArgs source destination exclusions compress verbose progress delete ].
Proof. unfold runRsync. simpl. destruct (os.Run w _); reflexivity. Qed.

(** C8: the argument list of every transfer invocation is, in order: the
    flag string -a with v added iff verbose and z added iff compress; then
    --progress when progress is on; then --delete when delete is on; then
    --exclude and the pattern for each exclusion, in list order; then the
    source followed by a separator; then the destination.  [runRsync] runs
    rsync once, on exactly that list. *)
Theorem C8_transfer_arguments :
  forall (w : os.World) (source destination : string) (exclusions : list string)
         (compress verbose progress delete : bool),
    rsyncArgs source destination exclusions compress verbose progress delete
    = ([ ("-a" ++ (if verbose then "v" else "") ++ (if compress then "z" else ""))%string ]
       ++ (if progress then ["--progress"] else [])
       ++ (if delete then ["--delete"] else [])
       ++ flat_map (fun exclude => ["--exclude"; exclude]) exclusions
       ++ [ (source ++ "/")%string; destination ])%list
    /\ invocations (runRsync w source destination exclusions compress verbose progress delete)
       = [ rsyncArgs source destination exclusions compress verbose progress delete ].
Proof.
  intros w source destination exclusions compress verbose progress delete. split.
  - unfold rsyncArgs. rewrite exclude_arguments.
    destruct verbose, compress, progress, delete; simpl; reflexivity.
  - apply runRsync_invocations.
Qed.

(** ** isExcluded *)

Lemma matchExclusions_decides (relPath : string) (exclusions : list string) :
  snd (matchExclusions relPath exclusions) = existsb (patternExcludes relPath) exclusions.
Proof.
  induction exclusions as [| pattern rest IH]; [reflexivity |].
  cbn [matchExclusions existsb]. unfold patternExcludes, literalRules.
  destruct (strings.Contains pattern "*").
  - destruct (filepath.Match pattern (filepath.Base relPath)) as [[|] | e].
    + reflexivity.
    + cbn [orb].
      destruct (strings.HasPrefix pattern "/" && (relPath =? strings.TrimPrefix pattern "/"));
        [reflexivity |].
      destruct (filepath.Base relPath =? pattern); [reflexivity | exact IH].
    + destruct (matchExclusions relPath rest) as [out r]. simpl in *. exact IH.
  - destruct (strings.HasPrefix pattern "/" && (relPath =? strings.TrimPrefix pattern "/"));
      [reflexivity |].
    destruct (filepath.Base relPath =? pattern); [reflexivity | exact IH].
Qed.

Lemma patternExcludes_spec (relPath pattern : string) :
  patternExcludes relPath pattern = true <-> excludes relPath pattern.
Proof.
  unfold patternExcludes, literalRules. split.
  - intros H. destruct (strings.Contains pattern "*") eqn:Hstar.
    + destruct (filepath.Match pattern (filepath.Base relPath)) as [matched | e] eqn:Hm;
        [| discriminate].
      destruct matched; [now apply by_glob |].
      assert (Hok : notRejected relPath pattern) by (intros _; eauto).
      cbn [orb] in H. apply orb_true_iff in H as [H | H].
      * apply andb_true_iff in H as [Hp He]. apply String.eqb_eq in He.
        now apply by_root.
      * apply String.eqb_eq in H. now apply by_name.
    + assert (Hok : notRejected relPath pattern) by (intros Hc; congruence).
      apply orb_true_iff in H as [H | H].
      * apply andb_true_iff in H as [Hp He]. apply String.eqb_eq in He.
        now apply by_root.
      * apply String.eqb_eq in H. now apply by_name.
  - intros [Hstar Hm | Hok Hp He | Hok He].
    + rewrite Hstar, Hm. reflexivity.
    + assert (Hl : (strings.HasPrefix pattern "/"
                    && (relPath =? strings.TrimPrefix pattern "/")) = true).
      { rewrite Hp. apply String.eqb_eq in He. now rewrite He. }
      destruct (strings.Contains pattern "*") eqn:Hstar.
      * destruct (Hok Hstar) as [matched ->]. rewrite Hl. now destruct matched.
      * now rewrite Hl.
    + apply String.eqb_eq in He.
      destruct (strings.Contains pattern "*") eqn:Hstar.
      * destruct (Hok Hstar) as [matched ->]. rewrite He.
        rewrite orb_true_r. now destruct matched.
      * rewrite He. now rewrite orb_true_r.
Qed.

Lemma isExcluded_decides (w : os.World) (path : string) (exclusions : list string) :
  snd (isExcluded w path exclusions)
  = match os.Getwd w with
    | Err _ => false
    | Ok cwd =>
        match filepath.Rel cwd path with
        | Err _ => false
        | Ok relPath => existsb (patternExcludes relPath) exclusions
        end
    end.
Proof.
  unfold isExcluded. destruct (os.Getwd w) as [cwd | e]; [| reflexivity].
  destruct (filepath.Rel cwd path) as [relPath | e]; [| reflexivity].
  rewrite <- matchExclusions_decides.
  destruct (matchExclusions relPath exclusions); reflexivity.
Qed.

Lemma existsb_Permutation {A} (f : A -> bool) (l l' : list A) :
  Permutation l l' -> existsb f l = existsb f l'.
Proof.
  induction 1 as [| x l l' _ IH | x y l | l l' l'' _ IH1 _ IH2]; simpl.
  - reflexivity.
  - now rewrite IH.
  - destruct (f x), (f y); reflexivity.
  - now rewrite IH1.
Qed.

(** With one rule per kind of pattern the answer of [isExcluded] is not the
    disjunction over the list: the pattern ?.swp matches a.swp as a glob and
    the code, which reads only star patterns as globs, answers false; the
    pattern /a* does not match the name a* as a glob and the code, which goes
    on to the rooted rule, answers true. *)
Lemma C9_one_rule_per_kind_counterexample :
  existsb (specExcludes "a.swp") ["?.swp"] = true
  /\ snd (isExcluded projWorld "/home/u/proj/a.swp" ["?.swp"]) = false
  /\ existsb (specExcludes "a*") ["/a*"] = false
  /\ filepath.Rel "/home/u/proj" "/home/u/proj/a*" = Ok "a*"
  /\ snd (isExcluded projWorld "/home/u/proj/a*" ["/a*"]) = true.
Proof. vm_compute. repeat split. Qed.

(** C9, as the code has it: [isExcluded] answers true exactly when the path
    can be made relative to the working directory and some pattern of the
    list excludes it under one of the rules the loop applies to it: the glob
    rule for a pattern that holds a star, the rooted rule for a pattern that
    starts with a separator and the name rule for any pattern, the last two
    also for a star pattern unless [Match] rejects it; hence a permutation of
    the list gives the same answer, and the empty list excludes nothing. *)
Theorem C9_existential_match :
  forall (w : os.World) (path : string) (exclusions : list string),
    (snd (isExcluded w path exclusions) = true <->
     exists cwd relPath pattern,
       os.Getwd w = Ok cwd /\ filepath.Rel cwd path = Ok relPath /\
       In pattern exclusions /\ excludes relPath pattern)
    /\ (forall exclusions', Permutation exclusions exclusions' ->
          snd (isExcluded w path exclusions') = snd (isExcluded w path exclusions))
    /\ snd (isExcluded w path []) = false.
Proof.
  intros w path exclusions. repeat split.
  - rewrite isExcluded_decides. intros H.
    destruct (os.Getwd w) as [cwd | e] eqn:Hcwd; [| discriminate].
    destruct (filepath.Rel cwd path) as [relPath | e] eqn:Hrel; [| discriminate].
    apply existsb_exists in H as [pattern [Hin Hp]].
    exists cwd, relPath, pattern. repeat split; trivial.
    now apply patternExcludes_spec.
  - intros (cwd & relPath & pattern & Hcwd & Hrel & Hin & Hex).
    rewrite isExcluded_decides, Hcwd, Hrel.
    apply existsb_exists. exists pattern. split; [exact Hin |].
    now apply patternExcludes_spec.
  - intros exclusions' Hperm. rewrite !isExcluded_decides.
    destruct (os.Getwd w) as [cwd | e]; [| reflexivity].
    destruct (filepath.Rel cwd path) as [relPath | e]; [| reflexivity].
    symmetry. now apply existsb_Permutation.
  - rewrite isExcluded_decides.
    destruct (os.Getwd w) as [cwd | e]; [| reflexivity].
    destruct (filepath.Rel cwd path); reflexivity.
Qed.

(** C3: with the exclusions *.swp, /secret and bin/ and the working
    directory as watch root, [isExcluded] answers true for notes.swp, true
    for secret at the root and false for sub/secret; for the path whose last
    element is bin it answers false, where the entry bin/ is meant to
    exclude it: no rule of the loop strips the separator that ends the
    pattern. *)
Theorem C3_sample_exclusions :
  snd (isExcluded projWorld "/home/u/proj/notes.swp" sampleExclusions) = true
  /\ snd (isExcluded projWorld "/home/u/proj/secret" sampleExclusions) = true
  /\ snd (isExcluded projWorld "/home/u/proj/sub/secret" sampleExclusions) = false
  /\ filepath.Base "/home/u/proj/bin" = "bin"
  /\ snd (isExcluded projWorld "/home/u/proj/bin" sampleExclusions) = false.
Proof. vm_compute. repeat split. Qed.

(** A pattern with a question mark or a character class and no star is not
    read as a glob: the glob matches the name, [isExcluded] answers false. *)
Lemma C6_wildcards_without_star :
  hasWildcard "?.swp" = true
  /\ filepath.Match "?.swp" (filepath.Base "a.swp") = Ok true
  /\ snd (isExcluded projWorld "/home/u/proj/a.swp" ["?.swp"]) = false
  /\ hasWildcard "[ab].swp" = true
  /\ filepath.Match "[ab].swp" (filepath.Base "a.swp") = Ok true
  /\ snd (isExcluded projWorld "/home/u/proj/a.swp" ["[ab].swp"]) = false.
Proof. vm_compute. repeat split. Qed.

Lemma existsb_skip {A} (f : A -> bool) (before after : list A) (x : A) :
  f x = false -> existsb f (before ++ x :: after) = existsb f (before ++ after).
Proof.
  intros Hx. rewrite !existsb_app. simpl. now rewrite Hx.
Qed.

(** C6, as the code has it: a pattern that holds a star is matched as a
    shell glob against the last element of the relative path.  A match
    excludes the path wherever the pattern stands in the list; when the glob
    does not match, the pattern excludes the path only if one of the two
    literal comparisons holds, and otherwise the answer is that of the list
    without it, nothing being printed for it; when [Match] rejects the
    pattern, one line is printed and the pattern is skipped: the answer is
    that of the list without it.  A pattern without a star is not matched as
    a glob: only the two literal rules apply to it. *)
Theorem C6_star_patterns_are_globs :
  forall (w : os.World) (path cwd relPath pattern : string),
    os.Getwd w = Ok cwd ->
    filepath.Rel cwd path = Ok relPath ->
    strings.Contains pattern "*" = true ->
    (forall exclusions,
        In pattern exclusions ->
        filepath.Match pattern (filepath.Base relPath) = Ok true ->
        snd (isExcluded w path exclusions) = true)
    /\ (forall before after,
          filepath.Match pattern (filepath.Base relPath) = Ok false ->
          snd (isExcluded w path (before ++ pattern :: after))
          = literalRules relPath pattern || snd (isExcluded w path (before ++ after))
          /\ fst (matchExclusions relPath (pattern :: after))
             = if literalRules relPath pattern then []
               else fst (matchExclusions relPath after))
    /\ (forall e before after,
          filepath.Match pattern (filepath.Base relPath) = Err e ->
          snd (isExcluded w path (before ++ pattern :: after))
          = snd (isExcluded w path (before ++ after))
          /\ fst (matchExclusions relPath (pattern :: after))
             = Stdout ("Error: Invalid pattern " ++ pattern ++ nl)
                 :: fst (matchExclusions relPath after))
    /\ (forall literal,
          strings.Contains literal "*" = false ->
          snd (isExcluded w path [literal]) = literalRules relPath literal).
Proof.
  intros w path cwd relPath pattern Hcwd Hrel Hstar.
  split; [| split; [| split]].
  - intros exclusions Hin Hm. rewrite isExcluded_decides, Hcwd, Hrel.
    apply existsb_exists. exists pattern. split; [exact Hin |].
    unfold patternExcludes. now rewrite Hstar, Hm.
  - intros before after Hm. split.
    + rewrite !isExcluded_decides, Hcwd, Hrel, !existsb_app. cbn [existsb].
      unfold patternExcludes at 2. rewrite Hstar, Hm. cbn [orb].
      destruct (existsb (patternExcludes relPath) before),
        (literalRules relPath pattern), (existsb (patternExcludes relPath) after);
        reflexivity.
    + cbn [matchExclusions]. rewrite Hstar, Hm. unfold literalRules.
      destruct (strings.HasPrefix pattern "/" && (relPath =? strings.TrimPrefix pattern "/"));
        [reflexivity |].
      cbn [orb]. destruct (filepath.Base relPath =? pattern); reflexivity.
  - intros e before after Hm. split.
    + rewrite !isExcluded_decides, Hcwd, Hrel. apply existsb_skip.
      unfold patternExcludes. now rewrite Hstar, Hm.
    + cbn [matchExclusions]. rewrite Hstar, Hm.
      destruct (matchExclusions relPath after); reflexivity.
  - intros literal Hl. rewrite isExcluded_decides, Hcwd, Hrel.
    cbn [existsb]. unfold patternExcludes. rewrite Hl. apply orb_false_r.
Qed.

Lemma C6_star_patterns_are_globs_witness :
  snd (isExcluded projWorld "/home/u/proj/notes.swp" sampleExclusions) = true
  /\ snd (isExcluded projWorld "/home/u/proj/notes.swp" (["/secret"] ++ "[*" :: ["bin/"]))
     = snd (isExcluded projWorld "/home/u/proj/notes.swp" (["/secret"] ++ ["bin/"]))
  /\ snd (isExcluded projWorld "/home/u/proj/notes.swp" ["?otes.swp"])
     = literalRules "notes.swp" "?otes.swp"
  /\ snd (isExcluded projWorld "/home/u/proj/notes.swp" (["/secret"] ++ "*.go" :: ["bin/"]))
     = false.
Proof.
  pose proof (C6_star_patterns_are_globs projWorld "/home/u/proj/notes.swp"
                "/home/u/proj" "notes.swp" "*.swp" eq_refl eq_refl eq_refl)
    as [Hglob [_ [_ Hlit]]].
  pose proof (C6_star_patterns_are_globs projWorld "/home/u/proj/notes.swp"
                "/home/u/proj" "notes.swp" "[*" eq_refl eq_refl eq_refl)
    as [_ [_ [Hbad _]]].
  pose proof (C6_star_patterns_are_globs projWorld "/home/u/proj/notes.swp"
                "/home/u/proj" "notes.swp" "*.go" eq_refl eq_refl eq_refl)
    as [_ [Hmiss _]].
  split; [| split; [| split]].
  - apply Hglob; [simpl; tauto | reflexivity].
  - exact (proj1 (Hbad filepath.ErrBadPattern ["/secret"] ["bin/"] eq_refl)).
  - apply Hlit. reflexivity.
  - rewrite (proj1 (Hmiss ["/secret"] ["bin/"] eq_refl)). reflexivity.
Defined.

(** ** The watch root *)

(** Normalisation that fails: the error is printed, the answer is false. *)
Lemma isExcluded_cannot_normalize (w : os.World) (path : string) (exclusions : list string) :
  (forall e, os.Getwd w = Err e ->
     isExcluded w path exclusions
     = ([Stdout ("Error: Unable to get current working directory: " ++ Error e ++ nl)], false))
  /\ (forall cwd e, os.Getwd w = Ok cwd -> filepath.Rel cwd path = Err e ->
        isExcluded w path exclusions
        = ([Stdout ("Error: Unable to make path relative: " ++ Error e ++ nl)], false)).
Proof.
  split.
  - intros e He. unfold isExcluded. now rewrite He.
  - intros cwd e Hcwd He. unfold isExcluded. now rewrite Hcwd, He.
Qed.

(** C7: [isExcluded] makes the path relative to the working directory of the
    process.  Run as ssync ./sub bq from /home/u/proj, the program loads the
    patterns from sub and watches /home/u/proj/sub; for the event on
    sub/secret the path relative to the watch root is secret, which the
    pattern /secret excludes, but [isExcluded] works with sub/secret and
    answers false. *)
Theorem C7_relative_to_working_directory :
  outcome (main (commandLine true ["./sub"; "bq"]) subWorld) = Forever subWatcher
  /\ filepath.Rel (w_source subWatcher) "/home/u/proj/sub/secret" = Ok "secret"
  /\ snd (matchExclusions "secret" (w_exclusions subWatcher)) = true
  /\ isExcluded subWorld "/home/u/proj/sub/secret" (w_exclusions subWatcher)
     = ([LogLine "relPath: sub/secret, cwd: /home/u/proj"], false).
Proof. vm_compute. repeat split. Qed.

(** ** The debounce timer *)

Lemma syncs_app (out out' : list (Z * effect)) :
  syncs (out ++ out') = (syncs out ++ syncs out')%list.
Proof.
  induction out as [| [t e] out IH]; simpl; [reflexivity |].
  destruct e; simpl; rewrite IH; reflexivity.
Qed.

Lemma syncs_stamp (t : Z) (out : list effect) :
  syncs (stamp t out) = map (pair t) (invocations out).
Proof.
  induction out as [| e out IH]; simpl; [reflexivity |].
  destruct e; simpl; rewrite IH; reflexivity.
Qed.

Lemma matchExclusions_quiet (relPath : string) (exclusions : list string) :
  invocations (fst (matchExclusions relPath exclusions)) = [].
Proof.
  induction exclusions as [| pattern rest IH]; [reflexivity |].
  cbn [matchExclusions].
  assert (Hlit : invocations (fst (
            if strings.HasPrefix pattern "/" && (relPath =? strings.TrimPrefix pattern "/")
            then ([], true)
            else if filepath.Base relPath =? pattern then ([], true)
                 else matchExclusions relPath rest)) = []).
  { destruct (strings.HasPrefix pattern "/" && (relPath =? strings.TrimPrefix pattern "/"));
      [reflexivity |].
    destruct (filepath.Base relPath =? pattern); [reflexivity | exact IH]. }
  destruct (strings.Contains pattern "*"); [| exact Hlit].
  destruct (filepath.Match pattern (filepath.Base relPath)) as [[|] | e].
  - reflexivity.
  - exact Hlit.
  - destruct (matchExclusions relPath rest) as [out r]. exact IH.
Qed.

Lemma isExcluded_quiet (w : os.World) (path : string) (exclusions : list string) :
  invocations (fst (isExcluded w path exclusions)) = [].
Proof.
  unfold isExcluded. destruct (os.Getwd w) as [cwd | e]; [| reflexivity].
  destruct (filepath.Rel cwd path) as [relPath | e]; [| reflexivity].
  pose proof (matchExclusions_quiet relPath exclusions) as Hq.
  destruct (matchExclusions relPath exclusions) as [out r]. exact Hq.
Qed.

Lemma deferred_invocations (w : os.World) (wt : Watcher) :
  invocations (deferred w wt)
  = [ rsyncArgs (w_source wt) (w_destination wt) (w_exclusions wt)
        (w_compress wt) (w_verbose wt) (w_progress wt) (w_delete wt) ].
Proof. apply runRsync_invocations. Qed.

Lemma last_cons {A} (l : list A) (x d : A) : last (x :: l) d = last l x.
Proof.
  revert x d. induction l as [| y l IH]; intros x d; [reflexivity |].
  change (last (x :: y :: l) d) with (last (y :: l) d). now rewrite !IH.
Qed.

Section Debounce.

Variable w : os.World.
Variable wt : Watcher.

Lemma expire_idle (now : Z) (st : Loop) :
  armed st = [] -> expire w wt now st = ([], st).
Proof.
  intros H. unfold expire. rewrite H. simpl. destruct st; simpl in *; now subst.
Qed.

Lemma expire_early (now d : Z) (h : nat) (st : Loop) :
  armed st = [(h, d)] -> (now < d)%Z -> expire w wt now st = ([], st).
Proof.
  intros H Hlt. unfold expire. rewrite H. simpl.
  destruct (Z.leb_spec d now) as [Hle | _]; [lia |].
  simpl. destruct st; simpl in *; now subst.
Qed.

Lemma expire_due (now d : Z) (h : nat) (st : Loop) :
  armed st = [(h, d)] -> (d <= now)%Z ->
  expire w wt now st = (stamp d (deferred w wt), mkLoop (syncTimer st) [] (fresh st)).
Proof.
  intros H Hle. unfold expire. rewrite H. simpl.
  destruct (Z.leb_spec d now) as [_ | Hlt]; [| lia].
  simpl. now rewrite app_nil_r.
Qed.

(** The timers left by [expire] are among those it found. *)
Lemma expire_oneSlot (now : Z) (st : Loop) :
  oneSlot st -> oneSlot (snd (expire w wt now st)).
Proof.
  intros [Hnil | [d [h [Hs Ha]]]].
  - rewrite expire_idle by exact Hnil. now left.
  - destruct (Z.leb_spec d now) as [Hle | Hlt].
    + rewrite (expire_due now d h) by assumption. now left.
    + rewrite (expire_early now d h) by assumption. right. exists d, h. now split.
Qed.

Lemma timer_Stop_own (h : nat) (d : Z) : timer_Stop h [(h, d)] = [].
Proof. unfold timer_Stop. simpl. now rewrite Nat.eqb_refl. Qed.

(** A qualifying event leaves exactly the timer it arms: the one armed
    before it, if any, has fired or is stopped. *)
Lemma receive_qualifying (now : Z) (event : fsnotify.Event) (st : Loop) :
  oneSlot st -> qualifies w wt event ->
  let st0 := snd (expire w wt now st) in
  snd (receive w wt now (FsEvent event) st)
  = mkLoop (Some (fresh st0)) [(fresh st0, (now + debounceDelay)%Z)] (S (fresh st0))
  /\ syncs (fst (receive w wt now (FsEvent event) st))
     = syncs (fst (expire w wt now st)).
Proof.
  intros Hone [Hkind Hexcl]. pose proof (expire_oneSlot now st Hone) as Hone0.
  unfold receive. destruct (expire w wt now st) as [fired st0]. simpl in *.
  rewrite Hkind. simpl.
  pose proof (isExcluded_quiet w (fsnotify.Name event) (w_exclusions wt)) as Hq.
  destruct (isExcluded w (fsnotify.Name event) (w_exclusions wt)) as [said excluded].
  simpl in *. subst excluded. simpl. split.
  - destruct Hone0 as [Hnil | [d [h [Hs Ha]]]].
    + rewrite Hnil. destruct (syncTimer st0); reflexivity.
    + rewrite Hs, Ha, timer_Stop_own. reflexivity.
  - rewrite syncs_app, syncs_stamp, invocations_app, Hq. simpl. now rewrite app_nil_r.
Qed.

Lemma receive_oneSlot (now : Z) (msg : message) (st : Loop) :
  oneSlot st -> oneSlot (snd (receive w wt now msg st)).
Proof.
  intros Hone. pose proof (expire_oneSlot now st Hone) as Hone0.
  unfold receive. destruct (expire w wt now st) as [fired st0]. simpl in Hone0.
  destruct msg as [event | e]; [| exact Hone0].
  destruct (isWatchedEvent event (w_changeList wt)); simpl; [| exact Hone0].
  destruct (isExcluded w (fsnotify.Name event) (w_exclusions wt)) as [said [|]];
    simpl; [exact Hone0 |].
  right. exists (now + debounceDelay)%Z, (fresh st0). split; [reflexivity |]. simpl.
  destruct Hone0 as [Hnil | [d [h [Hs Ha]]]].
  - rewrite Hnil. destruct (syncTimer st0); reflexivity.
  - rewrite Hs, Ha, timer_Stop_own. reflexivity.
Qed.

Lemma run_oneSlot (msgs : list (Z * message)) (st : Loop) :
  oneSlot st -> oneSlot (snd (run w wt msgs st)).
Proof.
  revert st. induction msgs as [| [now msg] rest IH]; intros st Hone; [exact Hone |].
  cbn [run]. pose proof (receive_oneSlot now msg st Hone) as H1.
  destruct (receive w wt now msg st) as [out st1]. simpl in H1.
  specialize (IH st1 H1). destruct (run w wt rest st1) as [out' st2]. exact IH.
Qed.

Lemma oneSlot_length (st : Loop) : oneSlot st -> (List.length (armed st) <= 1)%nat.
Proof.
  intros [-> | [d [h [_ ->]]]]; simpl; lia.
Qed.

(** A burst leaves one timer, due one delay after its last event, and
    starts no transfer while it lasts. *)
Lemma run_burst (more : list (Z * fsnotify.Event)) :
  forall (t : Z) (event : fsnotify.Event) (st : Loop),
    armed st = [] \/ (exists d, pending st d /\ (t < d)%Z) ->
    Forall (fun te => qualifies w wt (snd te)) ((t, event) :: more) ->
    burst_from t (map fst more) ->
    syncs (fst (run w wt (burstMessages ((t, event) :: more)) st)) = []
    /\ pending (snd (run w wt (burstMessages ((t, event) :: more)) st))
         (last (map fst more) t + debounceDelay)%Z.
Proof.
  induction more as [| [t' event'] more IH]; intros t event st Hst Hq Hb.
  - inversion Hq as [| ? ? Hq1 _]; subst. simpl in Hq1.
    assert (Hone : oneSlot st).
    { destruct Hst as [Hnil | [d [Hp _]]]; [now left | right; now exists d]. }
    assert (Hexp : expire w wt t st = ([], st)).
    { destruct Hst as [Hnil | [d [[h [Hs Ha]] Hlt]]].
      - now apply expire_idle.
      - now apply (expire_early t d h). }
    destruct (receive_qualifying t event st Hone Hq1) as [Hst1 Hout].
    rewrite Hexp in Hst1, Hout. simpl in Hst1, Hout.
    cbn [burstMessages map run fst snd].
    destruct (receive w wt t (FsEvent event) st) as [out st1]. simpl in *.
    rewrite app_nil_r. split; [exact Hout |].
    subst st1. exists (fresh st). now split.
  - inversion Hq as [| ? ? Hq1 Hq']; subst. simpl in Hq1.
    simpl in Hb. destruct Hb as [Hwin Hb'].
    assert (Hone : oneSlot st).
    { destruct Hst as [Hnil | [d [Hp _]]]; [now left | right; now exists d]. }
    assert (Hexp : expire w wt t st = ([], st)).
    { destruct Hst as [Hnil | [d [[h [Hs Ha]] Hlt]]].
      - now apply expire_idle.
      - now apply (expire_early t d h). }
    destruct (receive_qualifying t event st Hone Hq1) as [Hst1 Hout].
    rewrite Hexp in Hst1, Hout. simpl in Hst1, Hout.
    change (burstMessages ((t, event) :: (t', event') :: more))
      with ((t, FsEvent event) :: burstMessages ((t', event') :: more)).
    cbn [run].
    destruct (receive w wt t (FsEvent event) st) as [out st1]. simpl in Hst1, Hout.
    assert (Hst1' : armed st1 = [] \/ (exists d, pending st1 d /\ (t' < d)%Z)).
    { right. exists (t + debounceDelay)%Z. split; [| lia].
      subst st1. exists (fresh st). now split. }
    specialize (IH t' event' st1 Hst1' Hq' Hb').
    destruct (run w wt (burstMessages ((t', event') :: more)) st1) as [out' st2].
    cbn [fst snd] in IH. destruct IH as [IHout IHst]. cbn [fst snd]. split.
    + rewrite syncs_app, Hout, IHout. reflexivity.
    + change (map fst ((t', event') :: more)) with (t' :: map fst more).
      rewrite last_cons. exact IHst.
Qed.

End Debounce.

(** C2: a burst of one or more qualifying events, each arriving before the
    two-second window opened by the one before it has elapsed, starts
    exactly one transfer, at the end of the window that follows the last
    event of the burst, and none before.  Whatever the loop receives, at
    most one deferred transfer is armed at any time, and a qualifying event
    leaves only the timer it arms: the one armed before it is stopped
    first. *)
Theorem C2_debounce :
  forall (w : os.World) (wt : Watcher)
         (t : Z) (event : fsnotify.Event) (more : list (Z * fsnotify.Event)),
    Forall (fun te => qualifies w wt (snd te)) ((t, event) :: more) ->
    burst_from t (map fst more) ->
    (forall T,
        syncs (history w wt (burstMessages ((t, event) :: more)) T)
        = if (last (map fst more) t + debounceDelay <=? T)%Z
          then [ ((last (map fst more) t + debounceDelay)%Z,
                  rsyncArgs (w_source wt) (w_destination wt) (w_exclusions wt)
                    (w_compress wt) (w_verbose wt) (w_progress wt) (w_delete wt)) ]
          else [])
    /\ (forall (msgs : list (Z * message)) (T : Z),
          (List.length (armed (snd (run w wt msgs idle))) <= 1)%nat
          /\ (List.length (armed (snd (expire w wt T (snd (run w wt msgs idle))))) <= 1)%nat)
    /\ (forall (msgs : list (Z * message)) (now : Z) (e : fsnotify.Event),
          qualifies w wt e ->
          exists h,
            armed (snd (receive w wt now (FsEvent e) (snd (run w wt msgs idle))))
            = [(h, (now + debounceDelay)%Z)]).
Proof.
  intros w wt t event more Hq Hb.
  assert (Hidle : oneSlot idle) by (now left).
  split; [| split].
  - intros T. unfold history.
    destruct (run_burst w wt more t event idle (or_introl eq_refl) Hq Hb) as [Hout [h [Hs Ha]]].
    destruct (run w wt (burstMessages ((t, event) :: more)) idle) as [out st].
    cbn [fst snd] in Hout, Hs, Ha. rewrite syncs_app, Hout. cbn [app].
    destruct (Z.leb_spec (last (map fst more) t + debounceDelay) T) as [Hle | Hlt].
    + rewrite (expire_due w wt T _ h st Ha Hle). cbn [fst].
      now rewrite syncs_stamp, deferred_invocations.
    + now rewrite (expire_early w wt T _ h st Ha Hlt).
  - intros msgs T. split.
    + apply oneSlot_length, run_oneSlot, Hidle.
    + apply oneSlot_length, expire_oneSlot, run_oneSlot, Hidle.
  - intros msgs now e He.
    destruct (receive_qualifying w wt now e _ (run_oneSlot w wt msgs idle Hidle) He) as [Hst _].
    rewrite Hst. eexists. reflexivity.
Qed.

Lemma C2_debounce_witness :
  syncs (history projWorld projWatcher (burstMessages sampleBurst) (5 * second + 1))
  = [ ((5 * second)%Z, ["-avz"; "--progress"; "--exclude"; "*.swp"; "--exclude"; "/secret";
                        "--exclude"; "bin/"; "/home/u/proj/"; "bq:~/proj"]) ]
  /\ syncs (history projWorld projWatcher (burstMessages sampleBurst) (5 * second - 1)) = [].
Proof.
  assert (Hq : Forall (fun te => qualifies projWorld projWatcher (snd te)) sampleBurst).
  { repeat constructor. }
  assert (Hb : burst_from 0 (map fst (tl sampleBurst))).
  { simpl. unfold debounceDelay, second. repeat split; lia. }
  pose proof (C2_debounce projWorld projWatcher 0%Z
                (fsnotify.mkEvent "/home/u/proj/main.go" fsnotify.Write)
                (tl sampleBurst) Hq Hb) as [Hfire _].
  split.
  - exact (Hfire (5 * second + 1)%Z).
  - exact (Hfire (5 * second - 1)%Z).
Defined.

(** ** main *)

Lemma main_resolved (cl : CommandLine) (w : os.World) (cwd homeDir relativePath : string)
  (sourceEndpoint destEndpoint : syncEndpoint) :
  List.length (Args cl) = 1%nat \/ List.length (Args cl) = 2%nat ->
  os.Getwd w = Ok cwd ->
  os.UserHomeDir w = Ok homeDir ->
  filepath.Rel homeDir cwd = Ok relativePath ->
  newEndpoint w (sourceArg (Args cl)) cwd relativePath = Ok sourceEndpoint ->
  newEndpoint w (destArg (Args cl)) cwd relativePath = Ok destEndpoint ->
  main cl w = synchronize cl w cwd sourceEndpoint destEndpoint.
Proof.
  intros Hlen Hcwd Hhome Hrel Hsrc Hdst. unfold main.
  assert (Hargs : (Nat.eqb (List.length (Args cl)) 0 || Nat.ltb 2 (List.length (Args cl)))
                  = false).
  { destruct Hlen as [-> | ->]; reflexivity. }
  rewrite Hargs, bind_ret.
  rewrite Hcwd, orExit_ok, bind_ret.
  rewrite Hhome, orExit_ok, bind_ret.
  rewrite Hrel, orExit_ok, bind_ret.
  rewrite Hsrc, orExit_ok, bind_ret.
  rewrite Hdst, orExit_ok, bind_ret.
  reflexivity.
Qed.

Lemma newEndpoint_remote (w : os.World) (arg cwd relativePath : string) :
  denotesLocal arg = false ->
  newEndpoint w arg cwd relativePath
  = Ok (mkEndpoint (formatRemotePath arg relativePath) (formatRemotePath arg relativePath)
          false "").
Proof. intros H. unfold newEndpoint. now rewrite H. Qed.

Lemma newEndpoint_local (w : os.World) (arg cwd relativePath : string) (ep : syncEndpoint) :
  denotesLocal arg = true ->
  newEndpoint w arg cwd relativePath = Ok ep ->
  isLocal ep = true /\ rsyncPath ep = localPath ep /\ name ep = localPath ep.
Proof.
  intros H. unfold newEndpoint. rewrite H.
  destruct (negb (arg =? "") && negb (arg =? ".")).
  - destruct (filepath.Abs w arg); [| discriminate].
    intros [= <-]. now repeat split.
  - intros [= <-]. now repeat split.
Qed.

(** With neither endpoint local, [synchronize] prints one line and exits. *)
Lemma synchronize_no_local (cl : CommandLine) (w : os.World) (cwd : string)
  (sourceEndpoint destEndpoint : syncEndpoint) :
  isLocal sourceEndpoint = false -> isLocal destEndpoint = false ->
  synchronize cl w cwd sourceEndpoint destEndpoint
  = ([Stdout (noLocalEndpoint ++ nl)], Exit 1%Z).
Proof. intros Hs Hd. unfold synchronize. rewrite Hs, Hd. reflexivity. Qed.

(** An ignore file that cannot be loaded ends the program before the
    transfer. *)
Lemma synchronize_load_error (cl : CommandLine) (w : os.World) (cwd : string)
  (sourceEndpoint destEndpoint : syncEndpoint) (e : error) :
  isLocal sourceEndpoint || isLocal destEndpoint = true ->
  loadIgnoreFile w (if isLocal sourceEndpoint then localPath sourceEndpoint
                    else localPath destEndpoint) = Err e ->
  synchronize cl w cwd sourceEndpoint destEndpoint
  = ([Stdout ("Error: Unable to load .ssyncignore file: " ++ Error e ++ nl)], Exit 1%Z).
Proof.
  intros Hloc Hload. unfold synchronize.
  destruct (isLocal sourceEndpoint) eqn:Hs.
  - cbn [negb andb]. rewrite bind_ret, Hload. reflexivity.
  - cbn [orb] in Hloc. rewrite Hloc. cbn [negb andb]. rewrite bind_ret, Hload. reflexivity.
Qed.

(** With a local endpoint and the patterns loaded, [synchronize] runs the
    transfer once; what follows it starts no other process. *)
Lemma synchronize_loaded (cl : CommandLine) (w : os.World) (cwd : string)
  (sourceEndpoint destEndpoint : syncEndpoint) (exclusions : list string) :
  isLocal sourceEndpoint || isLocal destEndpoint = true ->
  loadIgnoreFile w (if isLocal sourceEndpoint then localPath sourceEndpoint
                    else localPath destEndpoint) = Ok exclusions ->
  invocations (output (synchronize cl w cwd sourceEndpoint destEndpoint))
  = [ rsyncArgs (rsyncPath sourceEndpoint) (rsyncPath destEndpoint) exclusions
        true true true false ].
Proof.
  intros Hloc Hload. unfold synchronize.
  assert (Hcheck : (negb (isLocal sourceEndpoint) && negb (isLocal destEndpoint)) = false).
  { destruct (isLocal sourceEndpoint), (isLocal destEndpoint); try reflexivity; discriminate. }
  assert (Hbase : (if isLocal sourceEndpoint then localPath sourceEndpoint
                   else if isLocal destEndpoint then localPath destEndpoint else cwd)
                  = (if isLocal sourceEndpoint then localPath sourceEndpoint
                     else localPath destEndpoint)).
  { destruct (isLocal sourceEndpoint), (isLocal destEndpoint); try reflexivity; discriminate. }
  rewrite Hcheck, bind_ret, Hbase, Hload, orExit_ok, bind_ret.
  unfold fmt.Print, fmt.Println. rewrite bind_emit. cbn [output fst].
  rewrite bind_emit. cbn [output fst]. rewrite !invocations_app.
  cbn [flagDefaults compressVar progressVar deleteVar verboseVar].
  rewrite runRsync_invocations. cbn [invocations app].
  destruct (watch cl); [| reflexivity].
  destruct (isLocal sourceEndpoint); [| reflexivity].
  rewrite bind_emit. cbn [output fst]. rewrite invocations_app. cbn [invocations app].
  unfold startWatcher. destruct (os.NewWatcher w); [reflexivity |].
  destruct (os.Add w _); reflexivity.
Qed.

Lemma two_args (cl : CommandLine) (src dst : string) :
  Args cl = [src; dst] ->
  (List.length (Args cl) = 1%nat \/ List.length (Args cl) = 2%nat)
  /\ sourceArg (Args cl) = src /\ destArg (Args cl) = dst.
Proof. intros ->. repeat split. now right. Qed.

(** With two remote arguments the program exits with status 1 whatever the
    system answers, and starts no process. *)
Lemma main_two_remotes (cl : CommandLine) (w : os.World) (src dst : string) :
  Args cl = [src; dst] -> denotesLocal src = false -> denotesLocal dst = false ->
  outcome (main cl w) = Exit 1%Z /\ invocations (output (main cl w)) = [].
Proof.
  intros Hargs Hs Hd. destruct (two_args cl src dst Hargs) as [Hlen [Hsrc Hdst]].
  destruct (os.Getwd w) as [cwd | e] eqn:Hcwd.
  - destruct (os.UserHomeDir w) as [homeDir | e] eqn:Hhome.
    + destruct (filepath.Rel homeDir cwd) as [rp | e] eqn:Hrel.
      * rewrite (main_resolved cl w cwd homeDir rp _ _ Hlen Hcwd Hhome Hrel
                   (eq_trans (f_equal (fun a => newEndpoint w a cwd rp) Hsrc)
                             (newEndpoint_remote w src cwd rp Hs))
                   (eq_trans (f_equal (fun a => newEndpoint w a cwd rp) Hdst)
                             (newEndpoint_remote w dst cwd rp Hd))).
        rewrite synchronize_no_local by reflexivity. now split.
      * unfold main. rewrite Hargs. cbn [List.length Nat.eqb Nat.ltb Nat.leb orb].
        rewrite bind_ret, Hcwd, orExit_ok, bind_ret, Hhome, orExit_ok, bind_ret, Hrel.
        now split.
    + unfold main. rewrite Hargs. cbn [List.length Nat.eqb Nat.ltb Nat.leb orb].
      rewrite bind_ret, Hcwd, orExit_ok, bind_ret, Hhome. now split.
  - unfold main. rewrite Hargs. cbn [List.length Nat.eqb Nat.ltb Nat.leb orb].
    rewrite bind_ret, Hcwd. now split.
Qed.

(** Both endpoints local: the program raises no error on the pair and runs
    the transfer between the two directories. *)
Lemma C1_both_local_counterexample :
  denotesLocal "." = true /\ denotesLocal "/tmp/mirror" = true
  /\ main (commandLine false ["."; "/tmp/mirror"]) projWorld
     = ([ Stdout ("ssync - Copyright Alex Ellis 2024" ++ nl ++ nl ++ "/home/u/proj" ++ nl
                  ++ "=>" ++ nl ++ "/tmp/mirror" ++ nl ++ nl);
          Exec "rsync" ["-avz"; "--progress"; "/home/u/proj/"; "/tmp/mirror"];
          Stdout ("Sync completed successfully." ++ nl);
          Stdout ("Sync completed. Watch mode disabled." ++ nl) ],
        Ret tt).
Proof. vm_compute. repeat split. Qed.

(** C1, as the code has it: when both arguments resolve as remote the
    program prints that one endpoint must be the local machine, exits with
    status 1 and starts no transfer.  When both resolve as local there is no
    such error: the transfer is started from the one directory to the
    other. *)
Theorem C1_endpoint_pair :
  forall (cl : CommandLine) (w : os.World) (src dst cwd homeDir rp : string),
    Args cl = [src; dst] ->
    os.Getwd w = Ok cwd ->
    os.UserHomeDir w = Ok homeDir ->
    filepath.Rel homeDir cwd = Ok rp ->
    (denotesLocal src = false -> denotesLocal dst = false ->
       main cl w = ([Stdout (noLocalEndpoint ++ nl)], Exit 1%Z)
       /\ invocations (output (main cl w)) = [])
    /\ (denotesLocal src = true -> denotesLocal dst = true ->
        forall (se de : syncEndpoint) (exclusions : list string),
          newEndpoint w src cwd rp = Ok se ->
          newEndpoint w dst cwd rp = Ok de ->
          loadIgnoreFile w (localPath se) = Ok exclusions ->
          invocations (output (main cl w))
          = [ rsyncArgs (localPath se) (localPath de) exclusions true true true false ]).
Proof.
  intros cl w src dst cwd homeDir rp Hargs Hcwd Hhome Hrel.
  destruct (two_args cl src dst Hargs) as [Hlen [Hsrc Hdst]]. split.
  - intros Hs Hd.
    rewrite (main_resolved cl w cwd homeDir rp _ _ Hlen Hcwd Hhome Hrel
               (eq_trans (f_equal (fun a => newEndpoint w a cwd rp) Hsrc)
                         (newEndpoint_remote w src cwd rp Hs))
               (eq_trans (f_equal (fun a => newEndpoint w a cwd rp) Hdst)
                         (newEndpoint_remote w dst cwd rp Hd))).
    rewrite synchronize_no_local by reflexivity. now split.
  - intros Hs Hd se de exclusions Hse Hde Hload.
    destruct (newEndpoint_local w src cwd rp se Hs Hse) as [Hls [Hrs _]].
    destruct (newEndpoint_local w dst cwd rp de Hd Hde) as [Hld [Hrd _]].
    rewrite <- Hsrc in Hse. rewrite <- Hdst in Hde.
    rewrite (main_resolved cl w cwd homeDir rp se de Hlen Hcwd Hhome Hrel Hse Hde).
    rewrite <- Hrs, <- Hrd. apply synchronize_loaded.
    + now rewrite Hls.
    + now rewrite Hls.
Qed.

Lemma C1_endpoint_pair_witness :
  (main (commandLine true ["bq"; "pi@lab"]) projWorld
   = ([Stdout (noLocalEndpoint ++ nl)], Exit 1%Z)
   /\ invocations (output (main (commandLine true ["bq"; "pi@lab"]) projWorld)) = [])
  /\ invocations (output (main (commandLine false ["."; "/tmp/mirror"]) projWorld))
     = [ rsyncArgs "/home/u/proj" "/tmp/mirror" [] true true true false ].
Proof.
  split.
  - exact (proj1 (C1_endpoint_pair (commandLine true ["bq"; "pi@lab"]) projWorld
                    "bq" "pi@lab" "/home/u/proj" "/home/u" "proj"
                    eq_refl eq_refl eq_refl eq_refl) eq_refl eq_refl).
  - exact (proj2 (C1_endpoint_pair (commandLine false ["."; "/tmp/mirror"]) projWorld
                    "." "/tmp/mirror" "/home/u/proj" "/home/u" "proj"
                    eq_refl eq_refl eq_refl eq_refl) eq_refl eq_refl
             (mkEndpoint "/home/u/proj" "/home/u/proj" true "/home/u/proj")
             (mkEndpoint "/tmp/mirror" "/tmp/mirror" true "/tmp/mirror")
             [] eq_refl eq_refl eq_refl).
Defined.

(** ** The ignore file *)

Lemma loadIgnoreFile_cases (w : os.World) (dir : string) :
  (forall e, os.Open w (filepath.Join2 dir ".ssyncignore") = Err e ->
     loadIgnoreFile w dir = if IsNotExist e then Ok [] else Err e)
  /\ (forall file, os.Open w (filepath.Join2 dir ".ssyncignore") = Ok file ->
        loadIgnoreFile w dir
        = match scanErr file with
          | Some e => Err e
          | None => Ok (scanLines (lines file))
          end).
Proof.
  unfold loadIgnoreFile. split.
  - intros e ->. reflexivity.
  - intros file ->. reflexivity.
Qed.

(** An ignore file that exists and cannot be opened: the program prints the
    error and exits with status 1 before any transfer. *)
Lemma C4_unreadable_ignore_file_counterexample :
  os.Open deniedWorld "/home/u/proj/.ssyncignore"
  = Err (mkError "open .ssyncignore: permission denied" false)
  /\ main (commandLine true ["bq"]) deniedWorld
     = ([ Stdout ("Error: Unable to load .ssyncignore file: "
                  ++ "open .ssyncignore: permission denied" ++ nl) ],
        Exit 1%Z)
  /\ invocations (output (main (commandLine true ["bq"]) deniedWorld)) = [].
Proof. vm_compute. repeat split. Qed.

(** C4, as the code has it: an error while opening or reading the ignore
    file, other than the file not existing, is printed and ends the program
    with status 1 before any transfer is started.  Only a file that does not
    exist gives the empty exclusion list, and the transfer then runs without
    exclude arguments. *)
Theorem C4_ignore_file_errors :
  forall (cl : CommandLine) (w : os.World) (cwd homeDir rp : string)
         (se de : syncEndpoint) (e : error),
    List.length (Args cl) = 1%nat \/ List.length (Args cl) = 2%nat ->
    os.Getwd w = Ok cwd ->
    os.UserHomeDir w = Ok homeDir ->
    filepath.Rel homeDir cwd = Ok rp ->
    newEndpoint w (sourceArg (Args cl)) cwd rp = Ok se ->
    newEndpoint w (destArg (Args cl)) cwd rp = Ok de ->
    isLocal se || isLocal de = true ->
    (os.Open w (filepath.Join2 (if isLocal se then localPath se else localPath de)
                  ".ssyncignore") = Err e
     \/ exists file,
          os.Open w (filepath.Join2 (if isLocal se then localPath se else localPath de)
                       ".ssyncignore") = Ok file
          /\ scanErr file = Some e) ->
    (IsNotExist e = false ->
       main cl w
       = ([Stdout ("Error: Unable to load .ssyncignore file: " ++ Error e ++ nl)], Exit 1%Z)
       /\ invocations (output (main cl w)) = [])
    /\ (os.Open w (filepath.Join2 (if isLocal se then localPath se else localPath de)
                     ".ssyncignore") = Err e ->
        IsNotExist e = true ->
        invocations (output (main cl w))
        = [ rsyncArgs (rsyncPath se) (rsyncPath de) [] true true true false ]).
Proof.
  intros cl w cwd homeDir rp se de e Hlen Hcwd Hhome Hrel Hse Hde Hloc Hfile.
  rewrite (main_resolved cl w cwd homeDir rp se de Hlen Hcwd Hhome Hrel Hse Hde).
  destruct (loadIgnoreFile_cases w (if isLocal se then localPath se else localPath de))
    as [Hopen Hscan].
  split.
  - intros Hne.
    assert (Hload : loadIgnoreFile w (if isLocal se then localPath se else localPath de)
                    = Err e).
    { destruct Hfile as [Herr | [file [Hok Hs]]].
      - rewrite (Hopen e Herr), Hne. reflexivity.
      - rewrite (Hscan file Hok), Hs. reflexivity. }
    rewrite (synchronize_load_error cl w cwd se de e Hloc Hload). now split.
  - intros Herr Hne. apply synchronize_loaded; [exact Hloc |].
    rewrite (Hopen e Herr), Hne. reflexivity.
Qed.

Lemma C4_ignore_file_errors_witness :
  (main (commandLine true ["bq"]) deniedWorld
   = ([ Stdout ("Error: Unable to load .ssyncignore file: "
                ++ "open .ssyncignore: permission denied" ++ nl) ],
      Exit 1%Z)
   /\ invocations (output (main (commandLine true ["bq"]) deniedWorld)) = [])
  /\ invocations (output (main (commandLine true ["bq"]) projWorld))
     = [ rsyncArgs "/home/u/proj" "bq:~/proj" [] true true true false ].
Proof.
  split.
  - exact (proj1 (C4_ignore_file_errors (commandLine true ["bq"]) deniedWorld
                    "/home/u/proj" "/home/u" "proj"
                    (mkEndpoint "/home/u/proj" "/home/u/proj" true "/home/u/proj")
                    (mkEndpoint "bq:~/proj" "bq:~/proj" false "")
                    (mkError "open .ssyncignore: permission denied" false)
                    (or_introl eq_refl) eq_refl eq_refl eq_refl eq_refl eq_refl eq_refl
                    (or_introl eq_refl)) eq_refl).
  - exact (proj2 (C4_ignore_file_errors (commandLine true ["bq"]) projWorld
                    "/home/u/proj" "/home/u" "proj"
                    (mkEndpoint "/home/u/proj" "/home/u/proj" true "/home/u/proj")
                    (mkEndpoint "bq:~/proj" "bq:~/proj" false "")
                    (mkError "open .ssyncignore: no such file or directory" true)
                    (or_introl eq_refl) eq_refl eq_refl eq_refl eq_refl eq_refl eq_refl
                    (or_introl eq_refl)) eq_refl eq_refl).
Defined.

(** ** Watch mode with a remote source *)

(** C10: with watch mode on, a remote source and a local destination, the
    program runs the initial transfer and nothing else, prints that watch
    mode is only available when syncing from the local machine, and returns
    from [main]: the watcher is not started. *)
Theorem C10_pull_mode_skips_watcher :
  forall (cl : CommandLine) (w : os.World) (src dst cwd homeDir rp : string)
         (de : syncEndpoint) (exclusions : list string),
    Args cl = [src; dst] ->
    watch cl = true ->
    denotesLocal src = false ->
    denotesLocal dst = true ->
    os.Getwd w = Ok cwd ->
    os.UserHomeDir w = Ok homeDir ->
    filepath.Rel homeDir cwd = Ok rp ->
    newEndpoint w dst cwd rp = Ok de ->
    loadIgnoreFile w (localPath de) = Ok exclusions ->
    outcome (main cl w) = Ret tt
    /\ (forall wt, outcome (main cl w) <> Forever wt)
    /\ invocations (output (main cl w))
       = [ rsyncArgs (formatRemotePath src rp) (localPath de) exclusions true true true false ]
    /\ last (output (main cl w)) (Stdout "") = Stdout (watchNeedsLocalSource ++ nl).
Proof.
  intros cl w src dst cwd homeDir rp de exclusions
         Hargs Hwatch Hs Hd Hcwd Hhome Hrel Hde Hload.
  destruct (two_args cl src dst Hargs) as [Hlen [Hsrc Hdst]].
  destruct (newEndpoint_local w dst cwd rp de Hd Hde) as [Hld [Hrd Hnd]].
  rewrite <- Hdst in Hde.
  rewrite (main_resolved cl w cwd homeDir rp _ de Hlen Hcwd Hhome Hrel
             (eq_trans (f_equal (fun a => newEndpoint w a cwd rp) Hsrc)
                       (newEndpoint_remote w src cwd rp Hs)) Hde).
  unfold synchronize. cbn [isLocal rsyncPath name localPath].
  rewrite Hld, Hwatch. cbn [negb andb]. rewrite bind_ret, Hload, orExit_ok, bind_ret.
  unfold fmt.Print, fmt.Println. rewrite !bind_emit. cbn [output outcome fst snd emit].
  rewrite Hrd.
  cbn [flagDefaults compressVar progressVar deleteVar verboseVar].
  unfold runRsync.
  repeat split.
  - intros wt. discriminate.
  - destruct (os.Run w _); reflexivity.
  - destruct (os.Run w _); reflexivity.
Qed.

Lemma C10_pull_mode_skips_watcher_witness :
  outcome (main (commandLine true ["bq"; "."]) projWorld) = Ret tt
  /\ (forall wt, outcome (main (commandLine true ["bq"; "."]) projWorld) <> Forever wt)
  /\ invocations (output (main (commandLine true ["bq"; "."]) projWorld))
     = [ rsyncArgs "bq:~/proj" "/home/u/proj" [] true true true false ]
  /\ last (output (main (commandLine true ["bq"; "."]) projWorld)) (Stdout "")
     = Stdout (watchNeedsLocalSource ++ nl).
Proof.
  exact (C10_pull_mode_skips_watcher (commandLine true ["bq"; "."]) projWorld
           "bq" "." "/home/u/proj" "/home/u" "proj"
           (mkEndpoint "/home/u/proj" "/home/u/proj" true "/home/u/proj") []
           eq_refl eq_refl eq_refl eq_refl eq_refl eq_refl eq_refl eq_refl eq_refl).
Defined.

(** ** The shape of cleaned and relative paths *)

Lemma append_empty_r (s : string) : s ++ "" = s.
Proof. induction s as [| c s IH]; simpl; [reflexivity | now rewrite IH]. Qed.

Lemma append_assoc (a b c : string) : (a ++ b) ++ c = a ++ b ++ c.
Proof. induction a as [| x a IH]; simpl; [reflexivity | now rewrite IH]. Qed.

Lemma Split1_nonempty (s : string) (sep : ascii) : strings.Split1 s sep <> [].
Proof.
  destruct s as [| c s]; simpl; [discriminate |].
  destruct (Ascii.eqb c sep); [discriminate |].
  destruct (strings.Split1 s sep); discriminate.
Qed.

Lemma Split1_slashFree (s : string) :
  Forall (fun e => slashFree e = true) (strings.Split1 s slash).
Proof.
  induction s as [| c s IH]; simpl.
  - repeat constructor.
  - destruct (Ascii.eqb c slash) eqn:Hc.
    + constructor; [reflexivity | exact IH].
    + destruct (strings.Split1 s slash) as [| hd tl].
      * repeat constructor. simpl. now rewrite Hc.
      * inversion IH as [| ? ? Hhd Htl]; subst. constructor; [| exact Htl].
        simpl. now rewrite Hc, Hhd.
Qed.

Lemma Split1_element (e : string) :
  slashFree e = true -> strings.Split1 e slash = [e].
Proof.
  induction e as [| c e IH]; simpl; [reflexivity |].
  intros H. apply andb_true_iff in H as [Hc He].
  apply negb_true_iff in Hc. rewrite Hc, (IH He). reflexivity.
Qed.

Lemma Split1_cons (e rest : string) :
  slashFree e = true ->
  strings.Split1 (e ++ String slash rest) slash = e :: strings.Split1 rest slash.
Proof.
  induction e as [| c e IH]; cbn [append strings.Split1 slashFree].
  - intros _. now rewrite Ascii.eqb_refl.
  - intros H. apply andb_true_iff in H as [Hc He].
    apply negb_true_iff in Hc. rewrite Hc, (IH He). reflexivity.
Qed.

Lemma Split1_Join (es : list string) :
  es <> [] -> Forall (fun e => slashFree e = true) es ->
  strings.Split1 (strings.Join es "/") slash = es.
Proof.
  induction es as [| e es IH]; [congruence |].
  intros _ Hall. inversion Hall as [| ? ? He Hes]; subst.
  destruct es as [| e' es].
  - simpl. now apply Split1_element.
  - change (strings.Join (e :: e' :: es) "/")
      with (e ++ String slash (strings.Join (e' :: es) "/")).
    rewrite (Split1_cons e _ He), IH; [reflexivity | discriminate | exact Hes].
Qed.

Lemma isKept_slashFree (es : list string) :
  Forall isKept es -> Forall (fun e => slashFree e = true) es.
Proof. intros H. eapply Forall_impl; [| exact H]. now intros e [[_ ?] _]. Qed.

Lemma clean_step_kept (rooted : bool) (st : list string) (e : string) :
  Forall isKept st -> slashFree e = true -> Forall isKept (filepath.clean_step rooted st e).
Proof.
  intros Hst He. unfold filepath.clean_step.
  destruct (e =? "") eqn:He0; [exact Hst |].
  destruct (e =? ".") eqn:He1; [exact Hst |]. cbn [orb].
  apply String.eqb_neq in He0. apply String.eqb_neq in He1.
  assert (Hk : isKept e) by (repeat split; assumption).
  destruct (e =? "..").
  - destruct st as [| top below].
    + destruct rooted; [constructor | now repeat constructor].
    + destruct (top =? ".."); [now constructor |]. now inversion Hst.
  - now constructor.
Qed.

Lemma clean_fold_kept (rooted : bool) (es st : list string) :
  Forall isKept st -> Forall (fun e => slashFree e = true) es ->
  Forall isKept (fold_left (filepath.clean_step rooted) es st).
Proof.
  revert st. induction es as [| e es IH]; intros st Hst Hes; [exact Hst |].
  inversion Hes as [| ? ? He Hes']; subst. simpl.
  apply IH; [| exact Hes']. now apply clean_step_kept.
Qed.

Lemma Join_kept_nonempty (e : string) (es : list string) :
  e <> "" -> strings.Join (e :: es) "/" <> "".
Proof.
  intros He. destruct es; simpl; [exact He |].
  destruct e; [congruence | discriminate].
Qed.

(** [Clean] writes a rooted or a relative path of kept elements. *)
Lemma Clean_pathOf (path : string) :
  exists rooted es, Forall isKept es /\ filepath.Clean path = pathOf rooted es.
Proof.
  unfold filepath.Clean. destruct (path =? "").
  - exists false, []. split; [constructor | reflexivity].
  - set (st := fold_left (filepath.clean_step (filepath.IsAbs path)) (filepath.elements path) []).
    assert (Hst : Forall isKept (rev st)).
    { apply Forall_rev. apply clean_fold_kept; [constructor | apply Split1_slashFree]. }
    exists (filepath.IsAbs path), (rev st). split; [exact Hst |].
    destruct (filepath.IsAbs path); [reflexivity |].
    cbn [pathOf append]. destruct (rev st) as [| e es] eqn:Hrev; [reflexivity |].
    inversion Hst as [| ? ? [[He _] _] _]; subst.
    pose proof (Join_kept_nonempty e es He) as Hne.
    apply String.eqb_neq in Hne. now rewrite Hne.
Qed.

Lemma Join_cons (e e' : string) (es : list string) :
  strings.Join (e :: e' :: es) "/" = e ++ String slash (strings.Join (e' :: es) "/").
Proof. reflexivity. Qed.

Lemma Join_app (es es' : list string) :
  es <> [] -> es' <> [] ->
  strings.Join (es ++ es') "/" = strings.Join es "/" ++ "/" ++ strings.Join es' "/".
Proof.
  intros Hes Hes'. induction es as [| e es IH]; [congruence |].
  destruct es as [| e1 es].
  - destruct es' as [| e' es']; [congruence |]. reflexivity.
  - change ((e :: e1 :: es) ++ es')%list with (e :: e1 :: (es ++ es'))%list.
    rewrite !Join_cons.
    change (e1 :: (es ++ es'))%list with ((e1 :: es) ++ es')%list.
    rewrite IH by discriminate. now rewrite append_assoc.
Qed.

Lemma head_of_Join (e : string) (es : list string) :
  exists tail, strings.Join (e :: es) "/" = e ++ tail
               /\ (tail = "" \/ exists rest, tail = String slash rest).
Proof.
  destruct es as [| e' es].
  - exists "". split; [simpl; now rewrite append_empty_r | now left].
  - exists (String slash (strings.Join (e' :: es) "/")). split; [reflexivity |].
    right. now eexists.
Qed.

Lemma endsWithSlash_app (a b : string) :
  b <> "" -> endsWithSlash (a ++ b) = endsWithSlash b.
Proof.
  intros Hb. induction a as [| c a IH]; [reflexivity |].
  cbn [append]. destruct (a ++ b) eqn:Hab.
  - destruct a; [simpl in Hab; congruence | discriminate].
  - cbn [endsWithSlash]. exact IH.
Qed.

Lemma element_no_trailing_slash (e : string) :
  isElement e -> endsWithSlash e = false.
Proof.
  intros [Hne Hsf]. induction e as [| c e IH]; [congruence |].
  cbn [slashFree] in Hsf. apply andb_true_iff in Hsf as [Hc He].
  apply negb_true_iff in Hc. destruct e as [| c' e]; [exact Hc |].
  cbn [endsWithSlash]. apply IH; [discriminate | exact He].
Qed.

(** A path made of elements is not empty, does not start or end with a
    separator, and starts with [./] only when its first element is a dot. *)
Lemma Join_elements (e : string) (es : list string) :
  isElement e -> Forall isElement es ->
  strings.Join (e :: es) "/" <> ""
  /\ strings.HasPrefix (strings.Join (e :: es) "/") "/" = false
  /\ endsWithSlash (strings.Join (e :: es) "/") = false
  /\ (e <> "." -> strings.HasPrefix (strings.Join (e :: es) "/") "./" = false
                  /\ strings.Join (e :: es) "/" <> ".").
Proof.
  intros He Hes. split; [apply Join_kept_nonempty, He |]. split; [| split].
  - destruct (head_of_Join e es) as [tail [-> _]].
    destruct He as [Hne Hsf]. destruct e as [| c e]; [congruence |].
    cbn [slashFree] in Hsf. apply andb_true_iff in Hsf as [Hc _].
    apply negb_true_iff in Hc. unfold strings.HasPrefix. cbn [append String.prefix].
    destruct (ascii_dec "/" c) as [<- | _]; [| reflexivity].
    unfold slash in Hc. now rewrite Ascii.eqb_refl in Hc.
  - revert e He. induction es as [| e' es IH]; intros e He.
    + simpl. now apply element_no_trailing_slash.
    + inversion Hes as [| ? ? He' Hes']; subst. rewrite Join_cons.
      change (e ++ String slash (strings.Join (e' :: es) "/"))
        with (e ++ (String slash "" ++ strings.Join (e' :: es) "/")).
      rewrite <- append_assoc, endsWithSlash_app.
      * now apply IH.
      * now apply Join_kept_nonempty, He'.
  - intros Hdot. destruct (head_of_Join e es) as [tail [-> Htail]].
    destruct He as [Hne Hsf]. destruct e as [| c e]; [congruence |].
    destruct e as [| c' e].
    + assert (Hc : c <> "."%char) by (intros ->; now apply Hdot).
      split.
      * unfold strings.HasPrefix. cbn [append String.prefix].
        destruct (ascii_dec "." c) as [<- | _]; [congruence | reflexivity].
      * cbn [append]. intros [= Hcc _]. now apply Hc.
    + cbn [slashFree] in Hsf. apply andb_true_iff in Hsf as [_ Hsf].
      cbn [slashFree] in Hsf. apply andb_true_iff in Hsf as [Hc' _].
      apply negb_true_iff in Hc'. split.
      * unfold strings.HasPrefix. cbn [append String.prefix].
        destruct (ascii_dec "." c) as [_ | _]; [| reflexivity].
        destruct (ascii_dec "/" c') as [<- | _]; [| reflexivity].
        unfold slash in Hc'. now rewrite Ascii.eqb_refl in Hc'.
      * cbn [append]. discriminate.
Qed.

Lemma isKept_isElement (es : list string) : Forall isKept es -> Forall isElement es.
Proof. intros H. eapply Forall_impl; [| exact H]. now intros e [? _]. Qed.

Lemma last_Forall {A} (P : A -> Prop) (l : list A) (x d : A) :
  Forall P (x :: l) -> P (last (x :: l) d).
Proof.
  revert x. induction l as [| y l IH]; intros x H.
  - now inversion H.
  - inversion H; subst. change (last (x :: y :: l) d) with (last (y :: l) d). now apply IH.
Qed.

Lemma pathOf_IsAbs (rooted : bool) (es : list string) :
  Forall isKept es -> filepath.IsAbs (pathOf rooted es) = rooted.
Proof.
  intros Hes. destruct rooted.
  - unfold filepath.IsAbs, strings.HasPrefix. cbn [pathOf append].
    destruct (strings.Join es "/"); reflexivity.
  - destruct es as [| e es]; [reflexivity |].
    inversion Hes as [| ? ? [He _] Hes']; subst.
    apply (Join_elements e es He (isKept_isElement es Hes')).
Qed.

Lemma pathOf_not_dot (rooted : bool) (es : list string) :
  Forall isKept es -> (rooted = true \/ es <> []) -> (pathOf rooted es =? ".") = false.
Proof.
  intros Hes Hcase. apply String.eqb_neq. destruct rooted.
  - cbn [pathOf append]. intros [=].
  - destruct es as [| e es]; [destruct Hcase; congruence |].
    inversion Hes as [| ? ? [He Hdot] Hes']; subst.
    apply (Join_elements e es He (isKept_isElement es Hes')). exact Hdot.
Qed.

(** The elements [Rel] walks in a cleaned base and a cleaned target. *)
Lemma rel_elements_rooted (es : list string) :
  Forall isKept es -> filepath.rel_elements (pathOf true es) = "" :: es.
Proof.
  intros Hes. unfold filepath.rel_elements, filepath.elements.
  cbn [pathOf append String.eqb strings.Split1].
  change (Ascii.eqb "/" slash) with true. cbv iota.
  destruct es as [| e es]; [reflexivity |].
  rewrite Split1_Join; [| discriminate | now apply isKept_slashFree].
  change (last ("" :: e :: es) ".") with (last (e :: es) ".").
  pose proof (last_Forall isKept es e "." Hes) as [[Hne _] _].
  apply String.eqb_neq in Hne. now rewrite Hne.
Qed.

Lemma rel_elements_relative (e : string) (es : list string) :
  Forall isKept (e :: es) -> filepath.rel_elements (pathOf false (e :: es)) = e :: es.
Proof.
  intros Hes. unfold filepath.rel_elements, filepath.elements. cbn [pathOf].
  inversion Hes as [| ? ? [He _] Hes']; subst.
  pose proof (Join_kept_nonempty e es (proj1 He)) as Hne.
  apply String.eqb_neq in Hne. rewrite Hne.
  rewrite Split1_Join; [| discriminate | now apply isKept_slashFree].
  pose proof (last_Forall isKept es e "." Hes) as [[Hl _] _].
  apply String.eqb_neq in Hl. now rewrite Hl.
Qed.

(** [rel_skip] removes one common prefix. *)
Lemma rel_skip_prefix (bs ts bs' ts' : list string) (cur : string) :
  filepath.rel_skip bs ts = (bs', ts', cur) ->
  exists common, bs = (common ++ bs')%list /\ ts = (common ++ ts')%list.
Proof.
  revert ts. induction bs as [| b bs IH]; intros ts H.
  - simpl in H. injection H as <- <- <-. now exists [].
  - destruct ts as [| t ts].
    + simpl in H. injection H as <- <- <-. now exists [].
    + cbn [filepath.rel_skip] in H. destruct (t =? b) eqn:Htb.
      * apply String.eqb_eq in Htb. subst t.
        destruct (IH ts H) as [common [-> ->]]. now exists (b :: common).
      * injection H as <- <- <-. now exists [].
Qed.

(** What [Rel] answers is a dot, for equal cleaned paths, or a path of
    elements that does not start with a dot element. *)
Lemma Rel_shape (basepath targpath rp : string) :
  filepath.Rel basepath targpath = Ok rp ->
  (rp = "." /\ filepath.Clean targpath = filepath.Clean basepath)
  \/ (filepath.Clean targpath <> filepath.Clean basepath
      /\ exists e es, isElement e /\ e <> "." /\ Forall isElement es
                      /\ rp = strings.Join (e :: es) "/").
Proof.
  unfold filepath.Rel.
  destruct (Clean_pathOf basepath) as (rb & eb & Hkb & ->).
  destruct (Clean_pathOf targpath) as (rt & et & Hkt & ->).
  destruct (pathOf rt et =? pathOf rb eb) eqn:Heq.
  { intros [= <-]. left. split; [reflexivity | now apply String.eqb_eq]. }
  apply String.eqb_neq in Heq. intros H. right. split; [exact Heq |].
  (* the base once a lone dot has been emptied *)
  assert (Hbase : exists base,
             (if pathOf rb eb =? "." then "" else pathOf rb eb) = base
             /\ filepath.IsAbs base = rb
             /\ filepath.rel_elements base = (if rb then "" :: eb else eb)).
  { destruct rb.
    - exists (pathOf true eb). rewrite (pathOf_not_dot true eb Hkb (or_introl eq_refl)).
      repeat split; [now apply pathOf_IsAbs | now apply rel_elements_rooted].
    - destruct eb as [| e eb].
      + exists "". repeat split.
      + exists (pathOf false (e :: eb)).
        assert (Hcons : false = true \/ e :: eb <> []) by (right; discriminate).
        rewrite (pathOf_not_dot false (e :: eb) Hkb Hcons).
        repeat split; [now apply pathOf_IsAbs | now apply rel_elements_relative]. }
  destruct Hbase as (base & Hbase & Habs & Hels). rewrite Hbase, Habs, Hels in H.
  rewrite (pathOf_IsAbs rt et Hkt) in H.
  destruct (Bool.eqb rb rt) eqn:Hr; [| discriminate]. cbn [negb] in H.
  apply Bool.eqb_prop in Hr. subst rt.
  (* the target elements, all of them elements, equal to the base ones only
     for equal paths, and without a dot element unless the base is not empty *)
  assert (Htarg : exists ts0,
             filepath.rel_skip (if rb then "" :: eb else eb)
                               (filepath.rel_elements (pathOf rb et))
             = filepath.rel_skip eb ts0
             /\ Forall isElement ts0 /\ ts0 <> eb
             /\ (Forall isKept ts0 \/ (ts0 = ["."] /\ eb <> []))).
  { destruct rb.
    - exists et. rewrite rel_elements_rooted by exact Hkt.
      repeat split; [now apply isKept_isElement | congruence | now left].
    - destruct et as [| e et].
      + exists ["."]. repeat split.
        * repeat constructor; discriminate.
        * intros <-. inversion Hkb as [| ? ? [_ Hd] _]. now apply Hd.
        * right. split; [reflexivity |]. intros ->. now apply Heq.
      + exists (e :: et). rewrite rel_elements_relative by exact Hkt.
        repeat split; [now apply isKept_isElement | congruence | now left]. }
  destruct Htarg as (ts0 & Htarg & Hel & Hne & Hdots). rewrite Htarg in H.
  destruct (filepath.rel_skip eb ts0) as [[bs' ts'] cur] eqn:Hskip.
  destruct (rel_skip_prefix eb ts0 bs' ts' cur Hskip) as [common [Hb Ht]].
  destruct (cur =? ".."); [discriminate |].
  assert (Hts' : Forall isElement ts').
  { rewrite Ht in Hel. now apply Forall_app in Hel as [_ ?]. }
  destruct bs' as [| b bs'].
  - injection H as <-. rewrite app_nil_r in Hb. subst common.
    destruct ts' as [| e es].
    + rewrite app_nil_r in Ht. congruence.
    + inversion Hts' as [| ? ? He Hes]; subst. exists e, es.
      split; [exact He |]. split; [| split; [exact Hes | reflexivity]].
      intros ->. destruct Hdots as [Hk | [Hdot Hnb]].
      * apply Forall_app in Hk as [_ Hk]. inversion Hk as [| ? ? [_ Hd] _]. now apply Hd.
      * destruct eb as [| b eb]; [congruence |]. simpl in Hdot.
        injection Hdot as _ Hdot. destruct eb; discriminate.
  - assert (Hup : isElement "..") by (split; [discriminate | reflexivity]).
    assert (Hups : Forall isElement (map (fun _ : string => "..") bs')).
    { apply Forall_forall. intros x Hx. apply in_map_iff in Hx as [? [<- _]]. exact Hup. }
    destruct ts' as [| e es].
    + injection H as <-. exists "..", (map (fun _ : string => "..") bs').
      split; [exact Hup |]. split; [discriminate |]. split; [exact Hups | reflexivity].
    + injection H as <-.
      exists "..", (map (fun _ : string => "..") bs' ++ e :: es)%list.
      split; [exact Hup |]. split; [discriminate |]. split.
      * apply Forall_app. now split.
      * change (".." :: (map (fun _ : string => "..") bs' ++ e :: es))%list
          with ((".." :: map (fun _ : string => "..") bs') ++ e :: es)%list.
        rewrite Join_app by discriminate. reflexivity.
Qed.

(** ** The remote address *)

Lemma formatRemotePath_home (host : string) :
  formatRemotePath host "." = host ++ ":~/" /\ formatRemotePath host "" = host ++ ":~/".
Proof. split; reflexivity. Qed.

Lemma formatRemotePath_below_home (host rp : string) :
  rp <> "" -> rp <> "." ->
  strings.HasPrefix rp "./" = false -> strings.HasPrefix rp "/" = false ->
  formatRemotePath host rp = host ++ ":~/" ++ rp.
Proof.
  intros Hne Hdot Hp1 Hp2. unfold formatRemotePath, strings.TrimPrefix.
  apply String.eqb_neq in Hne. apply String.eqb_neq in Hdot.
  rewrite Hne, Hp1, Hp2, Hdot, Hne. reflexivity.
Qed.

(** C5: for a remote host argument and the relative path [rp] from the home
    directory to the working directory, the address of the endpoint is
    host:~/ followed by [rp], without a separator at its end; when the
    working directory is the home directory ([rp] is a dot; the empty path is
    treated alike) the address is host:~/ and nothing more. *)
Theorem C5_remote_address :
  forall (w : os.World) (host cwd homeDir rp : string),
    denotesLocal host = false ->
    filepath.Rel homeDir cwd = Ok rp ->
    exists ep,
      newEndpoint w host cwd rp = Ok ep
      /\ isLocal ep = false
      /\ rsyncPath ep = formatRemotePath host rp
      /\ (rp = "." <-> filepath.Clean cwd = filepath.Clean homeDir)
      /\ (rp = "." -> rsyncPath ep = host ++ ":~/")
      /\ (rp <> "." ->
          rsyncPath ep = host ++ ":~/" ++ rp /\ endsWithSlash (rsyncPath ep) = false)
      /\ formatRemotePath host "" = host ++ ":~/".
Proof.
  intros w host cwd homeDir rp Hhost Hrel.
  rewrite (newEndpoint_remote w host cwd rp Hhost). eexists. split; [reflexivity |].
  cbn [isLocal rsyncPath]. split; [reflexivity |]. split; [reflexivity |].
  destruct (Rel_shape homeDir cwd rp Hrel)
    as [[-> Hsame] | [Hdiff (e & es & He & Hdot & Hes & ->)]].
  - split; [tauto |]. split; [intros _; reflexivity |]. split; [congruence | reflexivity].
  - destruct (Join_elements e es He Hes) as (Hne & Hslash & Hend & Hrest).
    destruct (Hrest Hdot) as [Hdotslash Hnotdot].
    split; [split; [congruence | intros Hc; now elim Hdiff] |].
    split; [congruence |]. split; [| reflexivity].
    intros _. rewrite formatRemotePath_below_home by assumption.
    split; [reflexivity |].
    rewrite endsWithSlash_app.
    + change (":~/" ++ strings.Join (e :: es) "/")
        with (String ":" (String "~" (String "/" "")) ++ strings.Join (e :: es) "/").
      rewrite endsWithSlash_app by exact Hne. exact Hend.
    + discriminate.
Qed.

Lemma C5_remote_address_witness :
  (exists ep,
     newEndpoint projWorld "alex@rpi.local" "/home/u/proj" "proj" = Ok ep
     /\ rsyncPath ep = "alex@rpi.local:~/proj")
  /\ (exists ep,
        newEndpoint projWorld "bq" "/home/u" "." = Ok ep /\ rsyncPath ep = "bq:~/").
Proof.
  split.
  - destruct (C5_remote_address projWorld "alex@rpi.local" "/home/u/proj" "/home/u" "proj"
                eq_refl eq_refl) as (ep & Hep & _ & _ & _ & _ & Hbelow & _).
    exists ep. split; [exact Hep |]. apply Hbelow. discriminate.
  - destruct (C5_remote_address projWorld "bq" "/home/u" "/home/u/" "."
                eq_refl eq_refl) as (ep & Hep & _ & _ & _ & Hhome & _).
    exists ep. split; [exact Hep |]. now apply Hhome.
Defined.

(** ** Patterns that end with a separator *)

Lemma Base_shape (path : string) :
  filepath.Base path = "/" \/ slashFree (filepath.Base path) = true.
Proof.
  unfold filepath.Base. destruct (path =? ""); [now right |].
  destruct (last (filepath.elements (filepath.trim_trailing_slashes path)) "" =? "") eqn:Hl;
    [now left |].
  right. unfold filepath.elements.
  pose proof (Split1_slashFree (filepath.trim_trailing_slashes path)) as Hall.
  destruct (strings.Split1 (filepath.trim_trailing_slashes path) slash) as [| e es] eqn:Hs.
  - now apply Split1_nonempty in Hs.
  - now apply (last_Forall (fun e => slashFree e = true)).
Qed.

Lemma endsWithSlash_not_slashFree (s : string) :
  endsWithSlash s = true -> slashFree s = false.
Proof.
  induction s as [| c s IH]; [discriminate |].
  cbn [endsWithSlash slashFree]. destruct s as [| c' s].
  - intros ->. reflexivity.
  - intros H. rewrite (IH H). apply andb_false_r.
Qed.

(** A pattern without a star that ends with a separator, such as the entries
    bin/ and /bin/ of an ignore file, excludes no path at all. *)
Lemma trailing_separator_never_excludes (w : os.World) (path pattern : string) :
  endsWithSlash pattern = true -> pattern <> "/" ->
  strings.Contains pattern "*" = false ->
  snd (isExcluded w path [pattern]) = false.
Proof.
  intros Hend Hroot Hstar. rewrite isExcluded_decides.
  destruct (os.Getwd w) as [cwd | e]; [| reflexivity].
  destruct (filepath.Rel cwd path) as [relPath | e] eqn:Hrel; [| reflexivity].
  cbn [existsb]. unfold patternExcludes. rewrite Hstar, orb_false_r.
  unfold literalRules. apply orb_false_iff. split.
  - destruct (strings.HasPrefix pattern "/") eqn:Hp; [| reflexivity]. cbn [andb].
    apply String.eqb_neq. intros ->.
    assert (Hrp : strings.TrimPrefix pattern "/" <> ""
                  /\ endsWithSlash (strings.TrimPrefix pattern "/") = false).
    { destruct (Rel_shape _ _ _ Hrel) as [[Hdot _] | [_ (e & es & He & _ & Hes & Hj)]].
      - rewrite Hdot. split; [discriminate | reflexivity].
      - rewrite Hj. split; now apply (Join_elements e es He Hes). }
    destruct Hrp as [Hne Hns]. unfold strings.TrimPrefix in Hne, Hns. rewrite Hp in Hne, Hns.
    destruct pattern as [| c rest]; [discriminate |]. cbn [String.length strings.drop] in Hne, Hns.
    destruct rest as [| c' rest]; [congruence |].
    change (endsWithSlash (String c' rest) = true) in Hend. congruence.
  - apply String.eqb_neq. intros Hb.
    destruct (Base_shape relPath) as [Hs | Hs]; [congruence |].
    rewrite Hb, (endsWithSlash_not_slashFree pattern Hend) in Hs. discriminate.
Qed.

(** * Further properties of main.go *)

(** ** The paths through main *)

(** [main] as a decision list: each failed step prints one line and exits
    with status 1; otherwise the endpoints go to [synchronize]. *)
Lemma main_steps (cl : CommandLine) (w : os.World) :
  main cl w
  = if Nat.eqb (List.length (Args cl)) 0 || Nat.ltb 2 (List.length (Args cl))
    then ([Stdout usage], Exit 1%Z)
    else
      match os.Getwd w with
      | Err e => (setupError "Unable to get current working directory" e, Exit 1%Z)
      | Ok cwd =>
          match os.UserHomeDir w with
          | Err e => (setupError "Unable to get user's home directory" e, Exit 1%Z)
          | Ok homeDir =>
              match filepath.Rel homeDir cwd with
              | Err e => (setupError "Unable to compute relative path" e, Exit 1%Z)
              | Ok rp =>
                  match newEndpoint w (sourceArg (Args cl)) cwd rp with
                  | Err e => (setupError "Unable to determine source" e, Exit 1%Z)
                  | Ok se =>
                      match newEndpoint w (destArg (Args cl)) cwd rp with
                      | Err e => (setupError "Unable to determine destination" e, Exit 1%Z)
                      | Ok de => synchronize cl w cwd se de
                      end
                  end
              end
          end
      end.
Proof.
  unfold main.
  destruct (Nat.eqb (List.length (Args cl)) 0 || Nat.ltb 2 (List.length (Args cl)));
    [reflexivity |].
  rewrite bind_ret.
  destruct (os.Getwd w) as [cwd | e]; [| reflexivity]. rewrite orExit_ok, bind_ret.
  destruct (os.UserHomeDir w) as [homeDir | e]; [| reflexivity]. rewrite orExit_ok, bind_ret.
  destruct (filepath.Rel homeDir cwd) as [rp | e]; [| reflexivity]. rewrite orExit_ok, bind_ret.
  destruct (newEndpoint w (sourceArg (Args cl)) cwd rp) as [se | e]; [| reflexivity].
  rewrite orExit_ok, bind_ret.
  destruct (newEndpoint w (destArg (Args cl)) cwd rp) as [de | e]; [| reflexivity].
  rewrite orExit_ok, bind_ret. reflexivity.
Qed.

(** How [startWatcher] ends. *)
Lemma startWatcher_cases (w : os.World) (source destination : string)
  (exclusions changeList : list string) (compress verbose progress delete : bool) :
  invocations (output (startWatcher w source destination exclusions changeList
                         compress verbose progress delete)) = []
  /\ outcome (startWatcher w source destination exclusions changeList
                compress verbose progress delete)
     = match os.NewWatcher w, os.Add w source with
       | None, None =>
           Forever (mkWatcher source destination exclusions changeList
                      compress verbose progress delete)
       | _, _ => Exit 1%Z
       end.
Proof.
  unfold startWatcher. destruct (os.NewWatcher w); [now split |].
  destruct (os.Add w source); now split.
Qed.

(** [synchronize] in full once the patterns are loaded. *)
Lemma synchronize_loaded_outcome (cl : CommandLine) (w : os.World) (cwd : string)
  (se de : syncEndpoint) (exclusions : list string) :
  isLocal se || isLocal de = true ->
  loadIgnoreFile w (if isLocal se then localPath se else localPath de) = Ok exclusions ->
  outcome (synchronize cl w cwd se de)
  = if watch cl && isLocal se then
      match os.NewWatcher w, os.Add w (localPath se) with
      | None, None =>
          Forever (mkWatcher (localPath se) (rsyncPath de) exclusions
                     (map (fun c => strings.ToUpper (strings.TrimSpace c))
                          (strings.Split1 (changes cl) ","%char))
                     true true true false)
      | _, _ => Exit 1%Z
      end
    else Ret tt.
Proof.
  intros Hloc Hload. unfold synchronize.
  assert (Hcheck : (negb (isLocal se) && negb (isLocal de)) = false).
  { destruct (isLocal se), (isLocal de); try reflexivity; discriminate. }
  assert (Hbase : (if isLocal se then localPath se
                   else if isLocal de then localPath de else cwd)
                  = (if isLocal se then localPath se else localPath de)).
  { destruct (isLocal se), (isLocal de); try reflexivity; discriminate. }
  rewrite Hcheck, bind_ret, Hbase, Hload, orExit_ok, bind_ret.
  unfold fmt.Print, fmt.Println. rewrite !bind_emit. cbn [outcome snd].
  destruct (watch cl); [| reflexivity].
  destruct (isLocal se); [| reflexivity]. cbn [andb].
  rewrite ?bind_emit. cbn [outcome snd].
  apply (startWatcher_cases w (localPath se) (rsyncPath de) exclusions).
Qed.

(** The three ways [synchronize] can go. *)
Lemma synchronize_cases (cl : CommandLine) (w : os.World) (cwd : string)
  (se de : syncEndpoint) :
  (isLocal se = false /\ isLocal de = false
   /\ synchronize cl w cwd se de = ([Stdout (noLocalEndpoint ++ nl)], Exit 1%Z))
  \/ (exists e,
        isLocal se || isLocal de = true
        /\ loadIgnoreFile w (if isLocal se then localPath se else localPath de) = Err e
        /\ synchronize cl w cwd se de
           = (setupError "Unable to load .ssyncignore file" e, Exit 1%Z))
  \/ (exists exclusions,
        isLocal se || isLocal de = true
        /\ loadIgnoreFile w (if isLocal se then localPath se else localPath de)
           = Ok exclusions
        /\ invocations (output (synchronize cl w cwd se de))
           = [ rsyncArgs (rsyncPath se) (rsyncPath de) exclusions true true true false ]).
Proof.
  destruct (isLocal se || isLocal de) eqn:Hloc.
  - destruct (loadIgnoreFile w (if isLocal se then localPath se else localPath de))
      as [exclusions | e] eqn:Hload.
    + right. right. exists exclusions. split; [reflexivity |]. split; [reflexivity |].
      now apply synchronize_loaded.
    + right. left. exists e. split; [reflexivity |]. split; [reflexivity |].
      now apply synchronize_load_error.
  - left. apply orb_false_iff in Hloc as [Hs Hd]. split; [exact Hs |]. split; [exact Hd |].
    now apply synchronize_no_local.
Qed.

(** X1: with no positional argument, or more than two, [main] prints the
    usage text and exits with status 1; nothing is read from the system and
    no process is started. *)
Theorem main_usage_error :
  forall (cl : CommandLine) (w : os.World),
    List.length (Args cl) = 0%nat \/ (2 < List.length (Args cl))%nat ->
    main cl w = ([Stdout usage], Exit 1%Z).
Proof.
  intros cl w Hlen. rewrite main_steps.
  assert (Hbad : (Nat.eqb (List.length (Args cl)) 0 || Nat.ltb 2 (List.length (Args cl)))
                 = true).
  { destruct Hlen as [-> | Hlt]; [reflexivity |].
    apply Nat.ltb_lt in Hlt. rewrite Hlt. apply orb_true_r. }
  now rewrite Hbad.
Qed.

Lemma main_usage_error_witness :
  main (commandLine true []) projWorld = ([Stdout usage], Exit 1%Z)
  /\ main (commandLine true ["."; "bq"; "pi"]) deniedWorld = ([Stdout usage], Exit 1%Z).
Proof.
  split.
  - apply (main_usage_error (commandLine true []) projWorld). left. reflexivity.
  - apply (main_usage_error (commandLine true ["."; "bq"; "pi"]) deniedWorld).
    right. simpl. lia.
Defined.

(** X2: when the working directory or the home directory cannot be read, or
    the one cannot be made relative to the other, [main] prints that error
    and exits with status 1 without starting a transfer. *)
Theorem main_setup_errors :
  forall (cl : CommandLine) (w : os.World),
    List.length (Args cl) = 1%nat \/ List.length (Args cl) = 2%nat ->
    (forall e, os.Getwd w = Err e ->
       main cl w = (setupError "Unable to get current working directory" e, Exit 1%Z))
    /\ (forall cwd e, os.Getwd w = Ok cwd -> os.UserHomeDir w = Err e ->
          main cl w = (setupError "Unable to get user's home directory" e, Exit 1%Z))
    /\ (forall cwd homeDir e,
          os.Getwd w = Ok cwd -> os.UserHomeDir w = Ok homeDir ->
          filepath.Rel homeDir cwd = Err e ->
          main cl w = (setupError "Unable to compute relative path" e, Exit 1%Z)).
Proof.
  intros cl w Hlen.
  assert (Hok : (Nat.eqb (List.length (Args cl)) 0 || Nat.ltb 2 (List.length (Args cl)))
                = false).
  { destruct Hlen as [-> | ->]; reflexivity. }
  split; [| split].
  - intros e He. now rewrite main_steps, Hok, He.
  - intros cwd e Hcwd He. now rewrite main_steps, Hok, Hcwd, He.
  - intros cwd homeDir e Hcwd Hhome He. now rewrite main_steps, Hok, Hcwd, Hhome, He.
Qed.

Lemma main_setup_errors_witness :
  main (commandLine true ["bq"])
    (os.mkWorld (Ok "/srv/data") (Ok "home") noIgnoreFile (fun _ => None) None (fun _ => None))
  = (setupError "Unable to compute relative path"
       (filepath.rel_error "home" "/srv/data"), Exit 1%Z).
Proof.
  exact (proj2 (proj2 (main_setup_errors (commandLine true ["bq"])
                         (os.mkWorld (Ok "/srv/data") (Ok "home") noIgnoreFile
                            (fun _ => None) None (fun _ => None))
                         (or_introl eq_refl)))
           "/srv/data" "home" (filepath.rel_error "home" "/srv/data")
           eq_refl eq_refl eq_refl).
Defined.

Lemma synchronize_ignores_options (cl : CommandLine) (w : os.World) (cwd : string)
  (se de : syncEndpoint) (compress delete progress verbose : bool) :
  synchronize (withOptions cl compress delete progress verbose) w cwd se de
  = synchronize cl w cwd se de.
Proof. reflexivity. Qed.

(** X3: the values given to the flags -compress, -delete, -progress and
    -verbose change nothing in a run: [main] reads the four flag variables
    before the command line is parsed, and every transfer it starts is run
    with -avz and --progress and without --delete. *)
Theorem main_ignores_option_flags :
  forall (cl : CommandLine) (w : os.World) (compress delete progress verbose : bool),
    main (withOptions cl compress delete progress verbose) w = main cl w
    /\ (invocations (output (main cl w)) = []
        \/ exists source destination exclusions,
             invocations (output (main cl w))
             = [ ("-avz" :: "--progress"
                    :: flat_map (fun exclude => ["--exclude"; exclude]) exclusions
                    ++ [ (source ++ "/")%string; destination ])%list ]).
Proof.
  intros cl w compress delete progress verbose. split.
  - rewrite !main_steps. cbn [withOptions Args].
    destruct (Nat.eqb (List.length (Args cl)) 0 || Nat.ltb 2 (List.length (Args cl)));
      [reflexivity |].
    destruct (os.Getwd w) as [cwd | e]; [| reflexivity].
    destruct (os.UserHomeDir w) as [homeDir | e]; [| reflexivity].
    destruct (filepath.Rel homeDir cwd) as [rp | e]; [| reflexivity].
    destruct (newEndpoint w (sourceArg (Args cl)) cwd rp) as [se | e]; [| reflexivity].
    destruct (newEndpoint w (destArg (Args cl)) cwd rp) as [de | e]; [| reflexivity].
    apply synchronize_ignores_options.
  - rewrite main_steps.
    destruct (Nat.eqb (List.length (Args cl)) 0 || Nat.ltb 2 (List.length (Args cl)));
      [now left |].
    destruct (os.Getwd w) as [cwd | e]; [| now left].
    destruct (os.UserHomeDir w) as [homeDir | e]; [| now left].
    destruct (filepath.Rel homeDir cwd) as [rp | e]; [| now left].
    destruct (newEndpoint w (sourceArg (Args cl)) cwd rp) as [se | e]; [| now left].
    destruct (newEndpoint w (destArg (Args cl)) cwd rp) as [de | e]; [| now left].
    destruct (synchronize_cases cl w cwd se de)
      as [(_ & _ & ->) | [(e & _ & _ & ->) | (exclusions & _ & _ & ->)]];
      [now left | now left |].
    right. exists (rsyncPath se), (rsyncPath de), exclusions.
    unfold rsyncArgs. rewrite exclude_arguments. reflexivity.
Qed.

(** One positional argument means the same as a dot followed by that
    argument: the current directory is the source. *)
Theorem main_one_argument :
  forall (cl : CommandLine) (w : os.World) (destination : string),
    main (withArgs cl [destination]) w = main (withArgs cl ["."; destination]) w.
Proof.
  intros cl w destination. rewrite !main_steps. cbn [withArgs Args List.length].
  reflexivity.
Qed.

(** X4: once [flag.Parse] has returned with the command line [cl], [main]
    starts at most one child process and, when it exits, the status is 1.
    (The exits of [flag.Parse] itself, on a flag it does not know or on a
    request for help, come before and are no part of [main cl].) *)
Theorem main_one_process_status_one :
  forall (cl : CommandLine) (w : os.World),
    (List.length (invocations (output (main cl w))) <= 1)%nat
    /\ (forall code, outcome (main cl w) = Exit code -> code = 1%Z).
Proof.
  intros cl w. rewrite main_steps.
  destruct (Nat.eqb (List.length (Args cl)) 0 || Nat.ltb 2 (List.length (Args cl)));
    [split; [simpl; lia | now intros code [= <-]] |].
  destruct (os.Getwd w) as [cwd | e]; [| split; [simpl; lia | now intros code [= <-]]].
  destruct (os.UserHomeDir w) as [homeDir | e];
    [| split; [simpl; lia | now intros code [= <-]]].
  destruct (filepath.Rel homeDir cwd) as [rp | e];
    [| split; [simpl; lia | now intros code [= <-]]].
  destruct (newEndpoint w (sourceArg (Args cl)) cwd rp) as [se | e];
    [| split; [simpl; lia | now intros code [= <-]]].
  destruct (newEndpoint w (destArg (Args cl)) cwd rp) as [de | e];
    [| split; [simpl; lia | now intros code [= <-]]].
  destruct (synchronize_cases cl w cwd se de)
    as [(_ & _ & ->) | [(e & _ & _ & ->) | (exclusions & Hloc & Hload & Hinv)]].
  - split; [simpl; lia | now intros code [= <-]].
  - split; [simpl; lia | now intros code [= <-]].
  - rewrite Hinv. split; [simpl; lia |].
    rewrite (synchronize_loaded_outcome cl w cwd se de exclusions Hloc Hload).
    destruct (watch cl && isLocal se); [| discriminate].
    destruct (os.NewWatcher w); [now intros code [= <-] |].
    destruct (os.Add w (localPath se)); [now intros code [= <-] | discriminate].
Qed.

Lemma synchronize_loaded_last (cl : CommandLine) (w : os.World) (cwd : string)
  (se de : syncEndpoint) (exclusions : list string) :
  isLocal se || isLocal de = true ->
  loadIgnoreFile w (if isLocal se then localPath se else localPath de) = Ok exclusions ->
  watch cl = false ->
  last (output (synchronize cl w cwd se de)) (Stdout "")
  = Stdout ("Sync completed. Watch mode disabled." ++ nl).
Proof.
  intros Hloc Hload Hwatch. unfold synchronize.
  assert (Hcheck : (negb (isLocal se) && negb (isLocal de)) = false).
  { destruct (isLocal se), (isLocal de); try reflexivity; discriminate. }
  assert (Hbase : (if isLocal se then localPath se
                   else if isLocal de then localPath de else cwd)
                  = (if isLocal se then localPath se else localPath de)).
  { destruct (isLocal se), (isLocal de); try reflexivity; discriminate. }
  rewrite Hcheck, bind_ret, Hbase, Hload, orExit_ok, bind_ret, Hwatch.
  unfold fmt.Print, fmt.Println. rewrite !bind_emit. cbn [output outcome fst snd emit].
  unfold runRsync. destruct (os.Run w _); reflexivity.
Qed.

(** X5: with watch mode off and a local endpoint, [main] runs the transfer
    once and returns; it does so whether rsync succeeds or fails, and its
    last line says that watch mode is disabled. *)
Theorem main_one_shot :
  forall (cl : CommandLine) (w : os.World) (cwd homeDir rp : string)
         (se de : syncEndpoint) (exclusions : list string),
    List.length (Args cl) = 1%nat \/ List.length (Args cl) = 2%nat ->
    watch cl = false ->
    os.Getwd w = Ok cwd ->
    os.UserHomeDir w = Ok homeDir ->
    filepath.Rel homeDir cwd = Ok rp ->
    newEndpoint w (sourceArg (Args cl)) cwd rp = Ok se ->
    newEndpoint w (destArg (Args cl)) cwd rp = Ok de ->
    isLocal se || isLocal de = true ->
    loadIgnoreFile w (if isLocal se then localPath se else localPath de) = Ok exclusions ->
    outcome (main cl w) = Ret tt
    /\ invocations (output (main cl w))
       = [ rsyncArgs (rsyncPath se) (rsyncPath de) exclusions true true true false ]
    /\ last (output (main cl w)) (Stdout "")
       = Stdout ("Sync completed. Watch mode disabled." ++ nl).
Proof.
  intros cl w cwd homeDir rp se de exclusions Hlen Hwatch Hcwd Hhome Hrel Hse Hde Hloc Hload.
  rewrite (main_resolved cl w cwd homeDir rp se de Hlen Hcwd Hhome Hrel Hse Hde).
  split; [| split].
  - rewrite (synchronize_loaded_outcome cl w cwd se de exclusions Hloc Hload), Hwatch.
    reflexivity.
  - now apply synchronize_loaded.
  - now apply (synchronize_loaded_last cl w cwd se de exclusions).
Qed.

Lemma main_one_shot_witness :
  outcome (main (commandLine false ["bq"]) failingRsyncWorld) = Ret tt
  /\ invocations (output (main (commandLine false ["bq"]) failingRsyncWorld))
     = [ ["-avz"; "--progress"; "/home/u/proj/"; "bq:~/proj"] ]
  /\ last (output (main (commandLine false ["bq"]) failingRsyncWorld)) (Stdout "")
     = Stdout ("Sync completed. Watch mode disabled." ++ nl).
Proof.
  exact (main_one_shot (commandLine false ["bq"]) failingRsyncWorld
           "/home/u/proj" "/home/u" "proj"
           (mkEndpoint "/home/u/proj" "/home/u/proj" true "/home/u/proj")
           (mkEndpoint "bq:~/proj" "bq:~/proj" false "") []
           (or_introl eq_refl) eq_refl eq_refl eq_refl eq_refl eq_refl eq_refl
           eq_refl eq_refl).
Defined.

(** X6: with watch mode on and a local source, [main] runs the initial
    transfer and then starts the watcher on the source directory, with the
    destination address, the loaded patterns and the change names of the
    -changes flag split at commas, trimmed and in upper case; when the
    notifier cannot be created or cannot watch the directory, the program
    exits with status 1 after that transfer. *)
Theorem main_starts_watcher :
  forall (cl : CommandLine) (w : os.World) (cwd homeDir rp : string)
         (se de : syncEndpoint) (exclusions : list string),
    List.length (Args cl) = 1%nat \/ List.length (Args cl) = 2%nat ->
    watch cl = true ->
    os.Getwd w = Ok cwd ->
    os.UserHomeDir w = Ok homeDir ->
    filepath.Rel homeDir cwd = Ok rp ->
    newEndpoint w (sourceArg (Args cl)) cwd rp = Ok se ->
    newEndpoint w (destArg (Args cl)) cwd rp = Ok de ->
    isLocal se = true ->
    loadIgnoreFile w (localPath se) = Ok exclusions ->
    invocations (output (main cl w))
    = [ rsyncArgs (rsyncPath se) (rsyncPath de) exclusions true true true false ]
    /\ outcome (main cl w)
       = match os.NewWatcher w, os.Add w (localPath se) with
         | None, None =>
             Forever (mkWatcher (localPath se) (rsyncPath de) exclusions
                        (map (fun c => strings.ToUpper (strings.TrimSpace c))
                             (strings.Split1 (changes cl) ","%char))
                        true true true false)
         | _, _ => Exit 1%Z
         end.
Proof.
  intros cl w cwd homeDir rp se de exclusions Hlen Hwatch Hcwd Hhome Hrel Hse Hde Hloc Hload.
  rewrite (main_resolved cl w cwd homeDir rp se de Hlen Hcwd Hhome Hrel Hse Hde).
  assert (Hloc' : isLocal se || isLocal de = true) by now rewrite Hloc.
  assert (Hload' : loadIgnoreFile w (if isLocal se then localPath se else localPath de)
                   = Ok exclusions) by now rewrite Hloc.
  split.
  - now apply synchronize_loaded.
  - rewrite (synchronize_loaded_outcome cl w cwd se de exclusions Hloc' Hload').
    now rewrite Hwatch, Hloc.
Qed.

Lemma main_starts_watcher_witness :
  outcome (main (mkCommandLine true " Write , remove" true false true true ["bq"]) projWorld)
  = Forever (mkWatcher "/home/u/proj" "bq:~/proj" [] ["WRITE"; "REMOVE"] true true true false)
  /\ outcome (main (commandLine true ["bq"]) noNotifierWorld) = Exit 1%Z
  /\ invocations (output (main (commandLine true ["bq"]) noNotifierWorld))
     = [ ["-avz"; "--progress"; "/home/u/proj/"; "bq:~/proj"] ].
Proof.
  pose proof (main_starts_watcher
                (mkCommandLine true " Write , remove" true false true true ["bq"]) projWorld
                "/home/u/proj" "/home/u" "proj"
                (mkEndpoint "/home/u/proj" "/home/u/proj" true "/home/u/proj")
                (mkEndpoint "bq:~/proj" "bq:~/proj" false "") []
                (or_introl eq_refl) eq_refl eq_refl eq_refl eq_refl eq_refl eq_refl
                eq_refl eq_refl) as [_ Hstart].
  pose proof (main_starts_watcher (commandLine true ["bq"]) noNotifierWorld
                "/home/u/proj" "/home/u" "proj"
                (mkEndpoint "/home/u/proj" "/home/u/proj" true "/home/u/proj")
                (mkEndpoint "bq:~/proj" "bq:~/proj" false "") []
                (or_introl eq_refl) eq_refl eq_refl eq_refl eq_refl eq_refl eq_refl
                eq_refl eq_refl) as [Hrun Hfail].
  split; [exact Hstart |]. split; [exact Hfail | exact Hrun].
Defined.

(** What the tool answers does not reach [synchronize]'s decisions. *)
Lemma synchronize_any_tool (cl : CommandLine) (w : os.World) (cwd : string)
  (se de : syncEndpoint) (run : list string -> option error) :
  outcome (synchronize cl (withRun w run) cwd se de) = outcome (synchronize cl w cwd se de)
  /\ invocations (output (synchronize cl (withRun w run) cwd se de))
     = invocations (output (synchronize cl w cwd se de)).
Proof.
  destruct (synchronize_cases cl w cwd se de)
    as [(Hs & Hd & Heq) | [(e & Hloc & Hload & Heq) | (exclusions & Hloc & Hload & Hinv)]].
  - rewrite Heq, (synchronize_no_local cl (withRun w run) cwd se de Hs Hd). now split.
  - rewrite Heq, (synchronize_load_error cl (withRun w run) cwd se de e Hloc Hload).
    now split.
  - split.
    + rewrite (synchronize_loaded_outcome cl w cwd se de exclusions Hloc Hload).
      now rewrite (synchronize_loaded_outcome cl (withRun w run) cwd se de exclusions
                     Hloc Hload).
    + rewrite Hinv. now apply (synchronize_loaded cl (withRun w run)).
Qed.

(** X7: a transfer that fails is reported and nothing more: how [main] ends
    and the transfer it starts are the same whatever rsync returns. *)
Theorem main_transfer_failure_not_fatal :
  forall (cl : CommandLine) (w : os.World) (run : list string -> option error),
    outcome (main cl (withRun w run)) = outcome (main cl w)
    /\ invocations (output (main cl (withRun w run))) = invocations (output (main cl w)).
Proof.
  intros cl w run. rewrite !main_steps.
  change (os.Getwd (withRun w run)) with (os.Getwd w).
  change (os.UserHomeDir (withRun w run)) with (os.UserHomeDir w).
  destruct (Nat.eqb (List.length (Args cl)) 0 || Nat.ltb 2 (List.length (Args cl)));
    [now split |].
  destruct (os.Getwd w) as [cwd | e]; [| now split].
  destruct (os.UserHomeDir w) as [homeDir | e]; [| now split].
  destruct (filepath.Rel homeDir cwd) as [rp | e]; [| now split].
  change (newEndpoint (withRun w run)) with (newEndpoint w).
  destruct (newEndpoint w (sourceArg (Args cl)) cwd rp) as [se | e]; [| now split].
  destruct (newEndpoint w (destArg (Args cl)) cwd rp) as [de | e]; [| now split].
  apply synchronize_any_tool.
Qed.

(** ** isWatchedEvent *)

Lemma isWatchedEvent_decides (event : fsnotify.Event) (changeList : list string) :
  isWatchedEvent event changeList
  = existsb (fun changeType =>
               match kindOp (strings.ToLower changeType) with
               | Some op => N.eqb (fsnotify.Op event) op
               | None => false
               end) changeList.
Proof.
  induction changeList as [| changeType rest IH]; [reflexivity |].
  cbn [isWatchedEvent existsb]. unfold kindOp.
  destruct (strings.ToLower changeType =? "write");
    [destruct (N.eqb (fsnotify.Op event) fsnotify.Write); [reflexivity | exact IH] |].
  destruct (strings.ToLower changeType =? "remove");
    [destruct (N.eqb (fsnotify.Op event) fsnotify.Remove); [reflexivity | exact IH] |].
  destruct (strings.ToLower changeType =? "chmod");
    [destruct (N.eqb (fsnotify.Op event) fsnotify.Chmod); [reflexivity | exact IH] |].
  destruct (strings.ToLower changeType =? "create");
    [destruct (N.eqb (fsnotify.Op event) fsnotify.Create); [reflexivity | exact IH] |].
  destruct (strings.ToLower changeType =? "rename");
    [destruct (N.eqb (fsnotify.Op event) fsnotify.Rename); [reflexivity | exact IH] |].
  exact IH.
Qed.

Lemma lower_upper_byte (c : ascii) :
  strings.lower_byte (strings.upper_byte c) = strings.lower_byte c.
Proof. destruct c as [[] [] [] [] [] [] [] []]; reflexivity. Qed.

Lemma ToLower_ToUpper (s : string) : strings.ToLower (strings.ToUpper s) = strings.ToLower s.
Proof.
  unfold strings.ToLower, strings.ToUpper.
  induction s as [| c s IH]; [reflexivity |].
  cbn [strings.map_bytes]. now rewrite lower_upper_byte, IH.
Qed.

Lemma kindOp_single (kind : string) (op : N) :
  kindOp kind = Some op ->
  op = fsnotify.Write \/ op = fsnotify.Remove \/ op = fsnotify.Chmod
  \/ op = fsnotify.Create \/ op = fsnotify.Rename.
Proof.
  unfold kindOp.
  destruct (kind =? "write"); [intros [= <-]; tauto |].
  destruct (kind =? "remove"); [intros [= <-]; tauto |].
  destruct (kind =? "chmod"); [intros [= <-]; tauto |].
  destruct (kind =? "create"); [intros [= <-]; tauto |].
  destruct (kind =? "rename"); [intros [= <-]; tauto | discriminate].
Qed.

(** X8: for a change list of ASCII names, an event is watched exactly when
    its operation is, bit for bit, the one operation some name of the list
    stands for, the names write, remove, chmod, create and rename being read
    without regard to case and any other name standing for nothing.  So the
    list in upper case filters like the list as typed, an event that carries
    two operations at once is never watched, and the empty list watches
    nothing. *)
Theorem isWatchedEvent_by_name :
  forall (event : fsnotify.Event) (changeList : list string),
    Forall (fun changeType => isASCII changeType = true) changeList ->
    (isWatchedEvent event changeList = true <->
     exists changeType,
       In changeType changeList
       /\ kindOp (strings.ToLower changeType) = Some (fsnotify.Op event))
    /\ isWatchedEvent event (map strings.ToUpper changeList)
       = isWatchedEvent event changeList
    /\ (fsnotify.Op event <> fsnotify.Write -> fsnotify.Op event <> fsnotify.Remove ->
        fsnotify.Op event <> fsnotify.Chmod -> fsnotify.Op event <> fsnotify.Create ->
        fsnotify.Op event <> fsnotify.Rename ->
        isWatchedEvent event changeList = false)
    /\ isWatchedEvent event [] = false.
Proof.
  intros event changeList _.
  assert (Hiff : isWatchedEvent event changeList = true <->
                 exists changeType,
                   In changeType changeList
                   /\ kindOp (strings.ToLower changeType) = Some (fsnotify.Op event)).
  { rewrite isWatchedEvent_decides, existsb_exists. split.
    - intros [c [Hin Hc]]. exists c. split; [exact Hin |].
      destruct (kindOp (strings.ToLower c)) as [op |]; [| discriminate].
      apply N.eqb_eq in Hc. now subst.
    - intros [c [Hin Hc]]. exists c. split; [exact Hin |].
      rewrite Hc. apply N.eqb_refl. }
  split; [exact Hiff |]. split; [| split; [| reflexivity]].
  - rewrite !isWatchedEvent_decides. induction changeList as [| c rest IH]; [reflexivity |].
    cbn [map existsb]. rewrite ToLower_ToUpper. f_equal.
    apply IH. rewrite isWatchedEvent_decides, existsb_exists. split.
    + intros [c' [Hin Hc]]. exists c'. split; [exact Hin |].
      destruct (kindOp (strings.ToLower c')) as [op |]; [| discriminate].
      apply N.eqb_eq in Hc. now subst.
    + intros [c' [Hin Hc]]. exists c'. split; [exact Hin |].
      rewrite Hc. apply N.eqb_refl.
  - intros Hw Hr Hc Hcr Hrn. apply not_true_is_false. intros Htrue.
    apply Hiff in Htrue as [c [_ Hk]].
    destruct (kindOp_single _ _ Hk) as [H | [H | [H | [H | H]]]]; congruence.
Qed.

Lemma isWatchedEvent_by_name_witness :
  isWatchedEvent (fsnotify.mkEvent "/home/u/proj/a.go" (N.lor fsnotify.Write fsnotify.Chmod))
    ["WRITE"; "CHMOD"; "delete"] = false.
Proof.
  destruct (isWatchedEvent_by_name
              (fsnotify.mkEvent "/home/u/proj/a.go" (N.lor fsnotify.Write fsnotify.Chmod))
              ["WRITE"; "CHMOD"; "delete"]) as [_ [_ [Hsingle _]]].
  - repeat constructor.
  - apply Hsingle; discriminate.
Defined.

(** ** loadIgnoreFile *)

Lemma TrimRightSpace_idempotent (s : string) :
  strings.TrimRightSpace (strings.TrimRightSpace s) = strings.TrimRightSpace s.
Proof.
  induction s as [| c s IH]; [reflexivity |].
  cbn [strings.TrimRightSpace].
  destruct (strings.TrimRightSpace s) as [| c' r] eqn:Hr.
  - destruct (strings.is_space c) eqn:Hc; [reflexivity |].
    cbn [strings.TrimRightSpace]. now rewrite Hc.
  - cbn [strings.TrimRightSpace]. cbn [strings.TrimRightSpace] in IH.
    destruct (strings.TrimRightSpace r) as [| c'' r'] eqn:Hr'.
    + destruct (strings.is_space c'); [discriminate |]. now rewrite IH.
    + now rewrite IH.
Qed.

Lemma TrimLeftSpace_head (s : string) :
  match strings.TrimLeftSpace s with
  | EmptyString => True
  | String c _ => strings.is_space c = false
  end.
Proof.
  induction s as [| c s IH]; [exact I |].
  cbn [strings.TrimLeftSpace]. destruct (strings.is_space c) eqn:Hc; [exact IH | exact Hc].
Qed.

Lemma TrimRightSpace_head (c : ascii) (s : string) :
  strings.is_space c = false ->
  exists r, strings.TrimRightSpace (String c s) = String c r.
Proof.
  intros Hc. cbn [strings.TrimRightSpace].
  destruct (strings.TrimRightSpace s) as [| c' r].
  - rewrite Hc. now eexists.
  - now eexists.
Qed.

Lemma TrimSpace_idempotent (s : string) :
  strings.TrimSpace (strings.TrimSpace s) = strings.TrimSpace s.
Proof.
  unfold strings.TrimSpace. pose proof (TrimLeftSpace_head s) as Hhead.
  destruct (strings.TrimLeftSpace s) as [| c a]; [reflexivity |].
  destruct (TrimRightSpace_head c a Hhead) as [r Hr]. rewrite Hr.
  cbn [strings.TrimLeftSpace]. rewrite Hhead, <- Hr. apply TrimRightSpace_idempotent.
Qed.

Lemma scanLines_filter (ls : list string) :
  scanLines ls = filter isPatternLine (map strings.TrimSpace ls).
Proof.
  induction ls as [| text rest IH]; [reflexivity |].
  cbn [scanLines map filter]. unfold isPatternLine at 1.
  destruct (strings.TrimSpace text =? ""); [exact IH |].
  destruct (strings.HasPrefix (strings.TrimSpace text) "#"); [exact IH |].
  cbn [negb andb orb]. now rewrite IH.
Qed.

(** X9: the patterns [loadIgnoreFile] returns for a file it could read are
    the lines of the file, trimmed, in file order, without the empty ones and
    those that start with a hash sign once trimmed; so no pattern is empty,
    starts with a hash sign or has white space around it, and a file read a
    second time from its own patterns gives the same patterns. *)
Theorem loadIgnoreFile_patterns :
  forall (w : os.World) (dir : string) (file : File) (exclusions : list string),
    os.Open w (filepath.Join2 dir ".ssyncignore") = Ok file ->
    loadIgnoreFile w dir = Ok exclusions ->
    exclusions = filter isPatternLine (map strings.TrimSpace (lines file))
    /\ (forall pattern, In pattern exclusions ->
          pattern <> "" /\ strings.HasPrefix pattern "#" = false
          /\ strings.TrimSpace pattern = pattern)
    /\ scanLines exclusions = exclusions.
Proof.
  intros w dir file exclusions Hopen Hload.
  unfold loadIgnoreFile in Hload. rewrite Hopen in Hload.
  destruct (scanErr file); [discriminate |]. injection Hload as <-.
  rewrite scanLines_filter.
  assert (Hin : forall pattern,
             In pattern (filter isPatternLine (map strings.TrimSpace (lines file))) ->
             pattern <> "" /\ strings.HasPrefix pattern "#" = false
             /\ strings.TrimSpace pattern = pattern).
  { intros pattern Hp. apply filter_In in Hp as [Hmap Hkeep].
    apply in_map_iff in Hmap as [text [<- _]].
    unfold isPatternLine in Hkeep. apply andb_true_iff in Hkeep as [Hne Hhash].
    apply negb_true_iff in Hne. apply negb_true_iff in Hhash.
    apply String.eqb_neq in Hne. repeat split; try assumption.
    apply TrimSpace_idempotent. }
  split; [reflexivity |]. split; [exact Hin |].
  rewrite scanLines_filter.
  induction (filter isPatternLine (map strings.TrimSpace (lines file))) as [| p ps IH];
    [reflexivity |].
  cbn [map filter]. destruct (Hin p (or_introl eq_refl)) as (Hne & Hhash & Htrim).
  rewrite Htrim. unfold isPatternLine at 1. apply String.eqb_neq in Hne.
  rewrite Hne, Hhash. cbn [negb andb]. f_equal. apply IH.
  intros pattern Hp. apply Hin. now right.
Qed.

Lemma loadIgnoreFile_patterns_witness :
  loadIgnoreFile ignoreFileWorld "/home/u/proj" = Ok ["bin/"; "*.swp"; "/secret"]
  /\ scanLines ["bin/"; "*.swp"; "/secret"] = ["bin/"; "*.swp"; "/secret"].
Proof.
  split; [reflexivity |].
  exact (proj2 (proj2 (loadIgnoreFile_patterns ignoreFileWorld "/home/u/proj"
                         (mkFile ["# build output"; "  bin/  "; ""; "*.swp"; "   # editor";
                                  "/secret"] None)
                         ["bin/"; "*.swp"; "/secret"] eq_refl eq_refl))).
Defined.

(** ** Name patterns *)

Lemma trim_trailing_slashes_fixed (path : string) :
  endsWithSlash path = false -> filepath.trim_trailing_slashes path = path.
Proof.
  induction path as [| c rest IH]; [reflexivity |].
  cbn [endsWithSlash filepath.trim_trailing_slashes]. destruct rest as [| c' rest].
  - intros Hc. cbn [filepath.trim_trailing_slashes]. now rewrite Hc.
  - intros Hend. rewrite (IH Hend). reflexivity.
Qed.

(** The last element of a path of elements is its [Base]. *)
Lemma Base_Join (dirs : list string) (final : string) :
  Forall isElement (dirs ++ [final]) ->
  filepath.Base (strings.Join (dirs ++ [final]) "/") = final.
Proof.
  intros Hall. destruct (dirs ++ [final])%list as [| e es] eqn:Hes.
  - now destruct dirs.
  - inversion Hall as [| ? ? He Hrest]; subst.
    destruct (Join_elements e es He Hrest) as (Hne & _ & Hend & _).
    unfold filepath.Base. apply String.eqb_neq in Hne. rewrite Hne.
    rewrite (trim_trailing_slashes_fixed _ Hend). unfold filepath.elements.
    rewrite Split1_Join;
      [| discriminate | eapply Forall_impl; [| exact Hall]; now intros x [_ ?]].
    rewrite <- Hes, last_last.
    assert (Hf : isElement final).
    { rewrite <- Hes in Hall. apply Forall_app in Hall as [_ Hf]. now inversion Hf. }
    destruct Hf as [Hfne _]. apply String.eqb_neq in Hfne. now rewrite Hfne.
Qed.

(** X10: a pattern without a star and without a leading separator is a name:
    it excludes exactly the paths whose last element is that name, at any
    depth under the working directory, and so not the files inside a
    directory of that name. *)
Theorem name_pattern_matches_last_element :
  forall (w : os.World) (path cwd pattern final : string) (dirs : list string),
    os.Getwd w = Ok cwd ->
    filepath.Rel cwd path = Ok (strings.Join (dirs ++ [final]) "/") ->
    Forall isElement (dirs ++ [final]) ->
    strings.Contains pattern "*" = false ->
    strings.HasPrefix pattern "/" = false ->
    snd (isExcluded w path [pattern]) = (final =? pattern).
Proof.
  intros w path cwd pattern final dirs Hcwd Hrel Hall Hstar Hroot.
  rewrite isExcluded_decides, Hcwd, Hrel. cbn [existsb].
  unfold patternExcludes, literalRules.
  rewrite Hstar, Hroot, (Base_Join dirs final Hall). cbn [andb orb]. apply orb_false_r.
Qed.

Lemma name_pattern_matches_last_element_witness :
  snd (isExcluded projWorld "/home/u/proj/vendor/.git" [".git"]) = true
  /\ snd (isExcluded projWorld "/home/u/proj/.git/config" [".git"]) = false.
Proof.
  assert (Hel : forall e, e = "vendor" \/ e = ".git" \/ e = "config" -> isElement e).
  { intros e [-> | [-> | ->]]; split; (reflexivity || discriminate). }
  split.
  - apply (name_pattern_matches_last_element projWorld "/home/u/proj/vendor/.git"
             "/home/u/proj" ".git" ".git" ["vendor"]); try reflexivity.
    repeat constructor; apply Hel; tauto.
  - apply (name_pattern_matches_last_element projWorld "/home/u/proj/.git/config"
             "/home/u/proj" ".git" "config" [".git"]); try reflexivity.
    repeat constructor; apply Hel; tauto.
Defined.

(** ** The same relative directory on both machines *)

Lemma clean_fold_names (rooted : bool) (es st : list string) :
  Forall isName es -> fold_left (filepath.clean_step rooted) es st = (rev es ++ st)%list.
Proof.
  revert st. induction es as [| e es IH]; intros st Hes; [reflexivity |].
  inversion Hes as [| ? ? [[[Hne _] Hdot] Hup] Hes']; subst.
  cbn [fold_left rev]. rewrite <- app_assoc. cbn [app].
  rewrite <- (IH (e :: st) Hes'). f_equal.
  unfold filepath.clean_step.
  apply String.eqb_neq in Hne. apply String.eqb_neq in Hdot. apply String.eqb_neq in Hup.
  now rewrite Hne, Hdot, Hup.
Qed.

Lemma isName_isKept (es : list string) : Forall isName es -> Forall isKept es.
Proof. intros H. eapply Forall_impl; [| exact H]. now intros e [? _]. Qed.

(** A rooted path of names is left as it is by [Clean]. *)
Lemma Clean_names (es : list string) :
  Forall isName es -> filepath.Clean (pathOf true es) = pathOf true es.
Proof.
  intros Hes. unfold filepath.Clean.
  rewrite (pathOf_IsAbs true es (isName_isKept es Hes)).
  cbn [pathOf append String.eqb]. unfold filepath.elements.
  change (strings.Split1 (String "/" (strings.Join es "/")) slash)
    with ("" :: strings.Split1 (strings.Join es "/") slash).
  destruct es as [| e es]; [reflexivity |].
  rewrite Split1_Join;
    [| discriminate | now apply isKept_slashFree, isName_isKept].
  change (fold_left (filepath.clean_step true) ("" :: e :: es) [])
    with (fold_left (filepath.clean_step true) (e :: es) []).
  rewrite (clean_fold_names true (e :: es) [] Hes), app_nil_r, rev_involutive.
  reflexivity.
Qed.

Lemma rel_skip_common (common rest : list string) :
  filepath.rel_skip common (common ++ rest) = ([], rest, "").
Proof.
  induction common as [| x common IH]; [now destruct rest |].
  cbn [app filepath.rel_skip]. now rewrite String.eqb_refl.
Qed.

(** The way from a directory to one below it is the names in between. *)
Lemma Rel_below (hs ss : list string) :
  Forall isName hs -> Forall isName ss -> ss <> [] ->
  filepath.Rel (pathOf true hs) (pathOf true (hs ++ ss)) = Ok (strings.Join ss "/").
Proof.
  intros Hhs Hss Hne.
  assert (Hall : Forall isName (hs ++ ss)) by (apply Forall_app; now split).
  pose proof (isName_isKept _ Hhs) as Hkh. pose proof (isName_isKept _ Hall) as Hka.
  unfold filepath.Rel. rewrite (Clean_names hs Hhs), (Clean_names (hs ++ ss) Hall).
  assert (Hdiff : (pathOf true (hs ++ ss) =? pathOf true hs) = false).
  { apply String.eqb_neq. intros Heq.
    pose proof (rel_elements_rooted (hs ++ ss) Hka) as H1.
    rewrite Heq, (rel_elements_rooted hs Hkh) in H1.
    injection H1 as H1. rewrite <- (app_nil_r hs) in H1 at 1.
    apply app_inv_head in H1. congruence. }
  rewrite Hdiff, (pathOf_not_dot true hs Hkh (or_introl eq_refl)).
  rewrite (pathOf_IsAbs true hs Hkh), (pathOf_IsAbs true (hs ++ ss) Hka).
  cbn [Bool.eqb negb].
  rewrite (rel_elements_rooted hs Hkh), (rel_elements_rooted (hs ++ ss) Hka).
  change ("" :: hs ++ ss)%list with (("" :: hs) ++ ss)%list.
  rewrite rel_skip_common. reflexivity.
Qed.

(** X13: run with one remote host argument in a directory below the home
    directory, the program transfers that directory, with a separator
    appended, to the same relative directory under the home directory of the
    host: host:~/ followed by the names from home to the working
    directory. *)
Theorem main_same_relative_directory :
  forall (cl : CommandLine) (w : os.World) (host : string) (hs ss exclusions : list string),
    Args cl = [host] ->
    denotesLocal host = false ->
    Forall isName hs -> Forall isName ss -> ss <> [] ->
    os.Getwd w = Ok (pathOf true (hs ++ ss)) ->
    os.UserHomeDir w = Ok (pathOf true hs) ->
    loadIgnoreFile w (pathOf true (hs ++ ss)) = Ok exclusions ->
    invocations (output (main cl w))
    = [ rsyncArgs (pathOf true (hs ++ ss)) (host ++ ":~/" ++ strings.Join ss "/")
          exclusions true true true false ].
Proof.
  intros cl w host hs ss exclusions Hargs Hhost Hhs Hss Hne Hcwd Hhome Hload.
  assert (Hall : Forall isName (hs ++ ss)) by (apply Forall_app; now split).
  assert (Hlen : List.length (Args cl) = 1%nat \/ List.length (Args cl) = 2%nat)
    by (rewrite Hargs; now left).
  assert (Hse : newEndpoint w (sourceArg (Args cl)) (pathOf true (hs ++ ss))
                  (strings.Join ss "/")
                = Ok (mkEndpoint (pathOf true (hs ++ ss)) (pathOf true (hs ++ ss)) true
                        (pathOf true (hs ++ ss)))).
  { rewrite Hargs. unfold newEndpoint. cbn [sourceArg List.length Nat.eqb].
    change (denotesLocal ".") with true. cbv iota.
    change (negb ("." =? "") && negb ("." =? ".")) with false. cbv iota.
    now rewrite (Clean_names (hs ++ ss) Hall). }
  assert (Hde : newEndpoint w (destArg (Args cl)) (pathOf true (hs ++ ss))
                  (strings.Join ss "/")
                = Ok (mkEndpoint (host ++ ":~/" ++ strings.Join ss "/")
                        (host ++ ":~/" ++ strings.Join ss "/") false "")).
  { rewrite Hargs. cbn [destArg List.length Nat.eqb nth].
    rewrite (newEndpoint_remote w host _ _ Hhost).
    destruct ss as [| e es]; [congruence |].
    inversion Hss as [| ? ? [[He Hdot] _] Hes]; subst.
    assert (Hel : Forall isElement es).
    { apply isKept_isElement, isName_isKept, Hes. }
    destruct (Join_elements e es He Hel) as (Hnempty & Hslash & _ & Hrest).
    destruct (Hrest Hdot) as [Hdotslash Hnotdot].
    now rewrite formatRemotePath_below_home. }
  rewrite (main_resolved cl w _ _ _ _ _ Hlen Hcwd Hhome (Rel_below hs ss Hhs Hss Hne) Hse Hde).
  apply (synchronize_loaded cl w); [reflexivity | exact Hload].
Qed.

Lemma main_same_relative_directory_witness :
  invocations (output (main (commandLine false ["alex@rpi.local"])
                         (os.mkWorld (Ok "/home/u/go/src/ssync") (Ok "/home/u") noIgnoreFile
                            (fun _ => None) None (fun _ => None))))
  = [ ["-avz"; "--progress"; "/home/u/go/src/ssync/"; "alex@rpi.local:~/go/src/ssync"] ].
Proof.
  assert (Hn : forall e, In e ["home"; "u"; "go"; "src"; "ssync"] -> isName e).
  { intros e He. simpl in He.
    repeat (destruct He as [<- | He];
            [repeat split; (reflexivity || discriminate) |]).
    contradiction. }
  apply (main_same_relative_directory (commandLine false ["alex@rpi.local"])
           (os.mkWorld (Ok "/home/u/go/src/ssync") (Ok "/home/u") noIgnoreFile
              (fun _ => None) None (fun _ => None))
           "alex@rpi.local" ["home"; "u"] ["go"; "src"; "ssync"] []);
    try reflexivity; try discriminate.
  - repeat constructor; apply Hn; simpl; tauto.
  - repeat constructor; apply Hn; simpl; tauto.
Defined.

(** ** The event loop beyond one burst *)

Section Loop.

Variable w : os.World.
Variable wt : Watcher.

Lemma expire_syncs (now : Z) (st : Loop) :
  syncs (fst (expire w wt now st)) = map (transferAt wt) (dueAt st now).
Proof.
  unfold expire, dueAt. cbn [fst].
  induction (filter (fun tm => (snd tm <=? now)%Z) (armed st)) as [| tm due IH];
    [reflexivity |].
  cbn [flat_map map]. rewrite syncs_app, syncs_stamp, deferred_invocations, IH.
  reflexivity.
Qed.

Lemma history_syncsFrom (msgs : list (Z * message)) (T : Z) :
  syncs (history w wt msgs T) = syncsFrom w wt idle msgs T.
Proof.
  unfold history, syncsFrom. destruct (run w wt msgs idle) as [out st].
  now rewrite syncs_app.
Qed.

Lemma syncsFrom_cons (now : Z) (msg : message) (rest : list (Z * message)) (st : Loop)
  (T : Z) :
  syncsFrom w wt st ((now, msg) :: rest) T
  = (syncs (fst (receive w wt now msg st))
       ++ syncsFrom w wt (snd (receive w wt now msg st)) rest T)%list.
Proof.
  unfold syncsFrom. cbn [run].
  destruct (receive w wt now msg st) as [out st1]. cbn [fst snd].
  destruct (run w wt rest st1) as [out' st2]. cbn [fst snd].
  now rewrite syncs_app, app_assoc.
Qed.

(** A message that does not pass the filters, or an error of the notifier,
    only lets the due timer fire. *)
Lemma receive_filtered (now : Z) (msg : message) (st : Loop) :
  qualifiesb w wt msg = false ->
  snd (receive w wt now msg st) = snd (expire w wt now st)
  /\ syncs (fst (receive w wt now msg st)) = syncs (fst (expire w wt now st)).
Proof.
  intros Hq. unfold receive. destruct (expire w wt now st) as [fired st0].
  destruct msg as [event | e].
  - cbn [qualifiesb] in Hq.
    destruct (isWatchedEvent event (w_changeList wt)); [| now split]. cbn [negb andb] in *.
    pose proof (isExcluded_quiet w (fsnotify.Name event) (w_exclusions wt)) as Hquiet.
    destruct (isExcluded w (fsnotify.Name event) (w_exclusions wt)) as [said excluded].
    cbn [fst snd] in *. apply negb_false_iff in Hq. subst excluded.
    split; [reflexivity |]. cbn [fst].
    now rewrite syncs_app, syncs_stamp, Hquiet, app_nil_r.
  - split; [reflexivity |]. cbn [fst]. rewrite syncs_app. cbn. now rewrite app_nil_r.
Qed.

Lemma qualifies_qualifiesb (event : fsnotify.Event) :
  qualifies w wt event <-> qualifiesb w wt (FsEvent event) = true.
Proof.
  unfold qualifies, qualifiesb. rewrite andb_true_iff, negb_true_iff. tauto.
Qed.

(** From any state with one slot, a sequence of qualifying events starts a
    transfer for the timer that was due at the first event and for each
    deadline reached between two events, and leaves the timer of the last
    event armed. *)
Lemma run_qualifying (more : list (Z * fsnotify.Event)) :
  forall (t : Z) (event : fsnotify.Event) (st : Loop),
    oneSlot st ->
    Forall (fun te => qualifies w wt (snd te)) ((t, event) :: more) ->
    syncs (fst (run w wt (burstMessages ((t, event) :: more)) st))
    = map (transferAt wt) (dueAt st t ++ firedBetween t (map fst more))
    /\ pending (snd (run w wt (burstMessages ((t, event) :: more)) st))
         (last (map fst more) t + debounceDelay)%Z.
Proof.
  induction more as [| [t' event'] more IH]; intros t event st Hone Hq;
    inversion Hq as [| ? ? Hq1 Hq']; subst; cbn [snd] in Hq1;
    destruct (receive_qualifying w wt t event st Hone Hq1) as [Hst1 Hout];
    rewrite expire_syncs in Hout.
  - cbn [burstMessages map run fst snd firedBetween].
    destruct (receive w wt t (FsEvent event) st) as [out st1]. cbn [fst snd] in *.
    rewrite !app_nil_r. split; [exact Hout |].
    subst st1. eexists. split; reflexivity.
  - change (burstMessages ((t, event) :: (t', event') :: more))
      with ((t, FsEvent event) :: burstMessages ((t', event') :: more)).
    cbn [run].
    destruct (receive w wt t (FsEvent event) st) as [out st1]. cbn [fst snd] in Hst1, Hout.
    assert (Hone1 : oneSlot st1).
    { right. exists (t + debounceDelay)%Z. subst st1. eexists. split; reflexivity. }
    specialize (IH t' event' st1 Hone1 Hq').
    destruct (run w wt (burstMessages ((t', event') :: more)) st1) as [out' st2].
    cbn [fst snd] in IH |- *. destruct IH as [IHout IHst]. split.
    + rewrite syncs_app, Hout, IHout, (map_app _ (dueAt st t)). f_equal. f_equal.
      change (map fst ((t', event') :: more)) with (t' :: map fst more).
      cbn [firedBetween]. f_equal. subst st1. unfold dueAt. cbn [armed filter snd].
      destruct (t + debounceDelay <=? t')%Z; reflexivity.
    + change (map fst ((t', event') :: more)) with (t' :: map fst more).
      rewrite last_cons. exact IHst.
Qed.

Lemma firedBetween_length (t : Z) (later : list Z) :
  (List.length (firedBetween t later) <= List.length later)%nat.
Proof.
  revert t. induction later as [| t' rest IH]; intros t; [simpl; lia |].
  cbn [firedBetween]. rewrite length_app. specialize (IH t').
  destruct (t + debounceDelay <=? t')%Z; simpl; lia.
Qed.

End Loop.

(** X14: for any sequence of qualifying events that arrive in order of
    time, none after [T], whatever their spacing, the transfers started by
    time [T] are: one at each deadline (event time plus two seconds) that
    the next event did not come before, and one at the deadline of the last
    event once [T] has reached it.  There are never more transfers than
    events. *)
Theorem debounce_fire_times :
  forall (w : os.World) (wt : Watcher)
         (t : Z) (event : fsnotify.Event) (more : list (Z * fsnotify.Event)) (T : Z),
    inOrderUpTo t (map fst more) T ->
    Forall (fun te => qualifies w wt (snd te)) ((t, event) :: more) ->
    syncs (history w wt (burstMessages ((t, event) :: more)) T)
    = map (transferAt wt)
        (firedBetween t (map fst more)
           ++ (if (last (map fst more) t + debounceDelay <=? T)%Z
               then [(last (map fst more) t + debounceDelay)%Z] else []))
    /\ (List.length (syncs (history w wt (burstMessages ((t, event) :: more)) T))
        <= S (List.length more))%nat.
Proof.
  intros w wt t event more T _ Hq.
  assert (Heq : syncs (history w wt (burstMessages ((t, event) :: more)) T)
                = map (transferAt wt)
                    (firedBetween t (map fst more)
                       ++ (if (last (map fst more) t + debounceDelay <=? T)%Z
                           then [(last (map fst more) t + debounceDelay)%Z] else []))).
  { rewrite history_syncsFrom. unfold syncsFrom.
    destruct (run_qualifying w wt more t event idle (or_introl eq_refl) Hq)
      as [Hout [h [_ Ha]]].
    rewrite Hout, expire_syncs, <- map_app. f_equal. unfold dueAt at 1. cbn [idle armed filter map app].
    f_equal. unfold dueAt. rewrite Ha. cbn [filter snd].
    destruct (last (map fst more) t + debounceDelay <=? T)%Z; reflexivity. }
  split; [exact Heq |].
  rewrite Heq, length_map, length_app.
  pose proof (firedBetween_length t (map fst more)) as Hlen. rewrite length_map in Hlen.
  destruct (last (map fst more) t + debounceDelay <=? T)%Z; simpl; lia.
Qed.

Lemma debounce_fire_times_witness :
  syncs (history projWorld projWatcher
           (burstMessages
              [ (0%Z, fsnotify.mkEvent "/home/u/proj/main.go" fsnotify.Write);
                ((1 * second)%Z, fsnotify.mkEvent "/home/u/proj/main.go" fsnotify.Write);
                ((4 * second)%Z, fsnotify.mkEvent "/home/u/proj/go.mod" fsnotify.Write) ])
           (5 * second)%Z)
  = [ transferAt projWatcher (3 * second)%Z ].
Proof.
  refine (proj1 (debounce_fire_times projWorld projWatcher 0%Z
                   (fsnotify.mkEvent "/home/u/proj/main.go" fsnotify.Write)
                   [ ((1 * second)%Z, fsnotify.mkEvent "/home/u/proj/main.go" fsnotify.Write);
                     ((4 * second)%Z, fsnotify.mkEvent "/home/u/proj/go.mod" fsnotify.Write) ]
                   (5 * second)%Z _ _)).
  - simpl. unfold second. lia.
  - repeat constructor.
Defined.

Section LoopFilters.

Variable w : os.World.
Variable wt : Watcher.

(** Letting the due timer fire early changes nothing later on. *)
Lemma expire_twice (t t' : Z) (st : Loop) :
  oneSlot st -> (t <= t')%Z ->
  snd (expire w wt t' (snd (expire w wt t st))) = snd (expire w wt t' st)
  /\ (syncs (fst (expire w wt t st))
        ++ syncs (fst (expire w wt t' (snd (expire w wt t st)))))%list
     = syncs (fst (expire w wt t' st)).
Proof.
  intros [Hnil | [d [h [Hs Ha]]]] Hle.
  - rewrite (expire_idle w wt t st Hnil). cbn [fst snd syncs app]. now split.
  - destruct (Z.leb_spec d t) as [Hdue | Hlater].
    + rewrite (expire_due w wt t d h st Ha Hdue). cbn [fst snd].
      rewrite (expire_due w wt t' d h st Ha) by lia.
      rewrite expire_idle by reflexivity. cbn [fst snd syncs]. rewrite app_nil_r.
      now split.
    + rewrite (expire_early w wt t d h st Ha Hlater). cbn [fst snd syncs app]. now split.
Qed.

(** A turn of the loop reads the state only after the due timer has fired. *)
Lemma receive_after_expire (t now : Z) (msg : message) (st : Loop) :
  oneSlot st -> (t <= now)%Z ->
  snd (receive w wt now msg (snd (expire w wt t st))) = snd (receive w wt now msg st)
  /\ (syncs (fst (expire w wt t st))
        ++ syncs (fst (receive w wt now msg (snd (expire w wt t st)))))%list
     = syncs (fst (receive w wt now msg st)).
Proof.
  intros Hone Hle. destruct (expire_twice t now st Hone Hle) as [Hst Hout].
  unfold receive.
  destruct (expire w wt now (snd (expire w wt t st))) as [fired' st'].
  destruct (expire w wt now st) as [fired st0]. cbn [fst snd] in Hst, Hout. subst st'.
  destruct msg as [event | e].
  - destruct (isWatchedEvent event (w_changeList wt)); cbn [negb];
      [| split; [reflexivity | exact Hout]].
    destruct (isExcluded w (fsnotify.Name event) (w_exclusions wt)) as [said [|]];
      cbn [fst snd]; (split; [reflexivity |]);
      rewrite !syncs_app, app_assoc, Hout; reflexivity.
  - cbn [fst snd]. split; [reflexivity |]. rewrite !syncs_app, app_assoc, Hout. reflexivity.
Qed.

Lemma inOrderUpTo_bounds (t : Z) (times : list Z) (T : Z) :
  inOrderUpTo t times T -> (t <= T)%Z /\ Forall (fun x => (t <= x)%Z) times.
Proof.
  revert t. induction times as [| t' rest IH]; intros t H.
  - split; [exact H | constructor].
  - destruct H as [Hle Hrest]. destruct (IH t' Hrest) as [HT Hall]. split; [lia |].
    constructor; [exact Hle |]. eapply Forall_impl; [| exact Hall].
    intros x Hx. cbn in Hx. lia.
Qed.

(** Messages that come no sooner than [t] see the same transfers whether or
    not the due timer was let to fire at [t]. *)
Lemma syncsFrom_after_expire (t : Z) (msgs : list (Z * message)) (st : Loop) (T : Z) :
  oneSlot st -> (t <= T)%Z -> Forall (fun x => (t <= x)%Z) (map fst msgs) ->
  (syncs (fst (expire w wt t st)) ++ syncsFrom w wt (snd (expire w wt t st)) msgs T)%list
  = syncsFrom w wt st msgs T.
Proof.
  intros Hone HT Hall. destruct msgs as [| [now msg] rest].
  - unfold syncsFrom. cbn [run fst snd syncs app].
    apply (expire_twice t T st Hone HT).
  - rewrite !syncsFrom_cons. inversion Hall as [| ? ? Hnow _]; subst. cbn [fst] in Hnow.
    destruct (receive_after_expire t now msg st Hone Hnow) as [Hst Hout].
    now rewrite Hst, app_assoc, Hout.
Qed.

Lemma filter_times_bound (t : Z) (keep : message -> bool) (msgs : list (Z * message)) :
  Forall (fun x => (t <= x)%Z) (map fst msgs) ->
  Forall (fun x => (t <= x)%Z) (map fst (filter (fun tm => keep (snd tm)) msgs)).
Proof.
  induction msgs as [| [now msg] rest IH]; intros H; [constructor |].
  inversion H as [| ? ? Hnow Hrest]; subst. cbn [filter snd].
  destruct (keep msg); [constructor; [exact Hnow | now apply IH] | now apply IH].
Qed.

Lemma syncsFrom_filter (msgs : list (Z * message)) :
  forall (t0 : Z) (st : Loop) (T : Z),
    oneSlot st -> inOrderUpTo t0 (map fst msgs) T ->
    syncsFrom w wt st msgs T
    = syncsFrom w wt st (filter (fun tm => qualifiesb w wt (snd tm)) msgs) T.
Proof.
  induction msgs as [| [now msg] rest IH]; intros t0 st T Hone Hord; [reflexivity |].
  cbn [map fst] in Hord. destruct Hord as [_ Hord].
  cbn [filter snd]. destruct (qualifiesb w wt msg) eqn:Hq.
  - rewrite !syncsFrom_cons. f_equal.
    apply (IH now); [now apply receive_oneSlot | exact Hord].
  - rewrite syncsFrom_cons.
    destruct (receive_filtered w wt now msg st Hq) as [-> ->].
    rewrite (IH now (snd (expire w wt now st)) T (expire_oneSlot w wt now st Hone) Hord).
    destruct (inOrderUpTo_bounds now (map fst rest) T Hord) as [HT Hall].
    apply syncsFrom_after_expire; [exact Hone | exact HT |].
    now apply filter_times_bound.
Qed.

(** What the tool answers does not reach the loop. *)
Lemma receive_any_tool (run' : list string -> option error) (now : Z) (msg : message)
  (st : Loop) :
  snd (receive (withRun w run') wt now msg st) = snd (receive w wt now msg st)
  /\ syncs (fst (receive (withRun w run') wt now msg st))
     = syncs (fst (receive w wt now msg st)).
Proof.
  assert (Hexp : snd (expire (withRun w run') wt now st) = snd (expire w wt now st)
                 /\ syncs (fst (expire (withRun w run') wt now st))
                    = syncs (fst (expire w wt now st))).
  { split; [reflexivity |]. unfold expire. cbn [fst].
    induction (filter (fun tm => (snd tm <=? now)%Z) (armed st)) as [| tm due IH];
      [reflexivity |].
    cbn [flat_map]. now rewrite !syncs_app, !syncs_stamp, !deferred_invocations, IH. }
  destruct Hexp as [Hst Hout]. unfold receive.
  change (isExcluded (withRun w run')) with (isExcluded w).
  destruct (expire (withRun w run') wt now st) as [fired' st'].
  destruct (expire w wt now st) as [fired st0]. cbn [fst snd] in Hst, Hout. subst st'.
  destruct msg as [event | e].
  - destruct (isWatchedEvent event (w_changeList wt)); cbn [negb];
      [| split; [reflexivity | exact Hout]].
    destruct (isExcluded w (fsnotify.Name event) (w_exclusions wt)) as [said [|]];
      cbn [fst snd]; (split; [reflexivity |]); rewrite !syncs_app, Hout; reflexivity.
  - cbn [fst snd]. split; [reflexivity |]. rewrite !syncs_app, Hout. reflexivity.
Qed.

Lemma run_any_tool (run' : list string -> option error) (msgs : list (Z * message)) :
  forall st,
    snd (run (withRun w run') wt msgs st) = snd (run w wt msgs st)
    /\ syncs (fst (run (withRun w run') wt msgs st)) = syncs (fst (run w wt msgs st)).
Proof.
  induction msgs as [| [now msg] rest IH]; intros st; [now split |].
  cbn [run]. destruct (receive_any_tool run' now msg st) as [Hst Hout].
  destruct (receive (withRun w run') wt now msg st) as [out1' st1'].
  destruct (receive w wt now msg st) as [out1 st1]. cbn [fst snd] in Hst, Hout. subst st1'.
  destruct (IH st1) as [IHst IHout].
  destruct (run (withRun w run') wt rest st1) as [out2' st2'].
  destruct (run w wt rest st1) as [out2 st2]. cbn [fst snd] in *.
  split; [exact IHst |]. now rewrite !syncs_app, Hout, IHout.
Qed.

End LoopFilters.

(** X15: events that are not watched, events on excluded paths and errors of
    the notifier never arm or reset the timer: for messages in time order,
    the transfers started by a time [T] after them are those of the
    qualifying events alone. *)
Theorem filtered_messages_do_not_count :
  forall (w : os.World) (wt : Watcher) (t0 : Z) (msgs : list (Z * message)) (T : Z),
    inOrderUpTo t0 (map fst msgs) T ->
    syncs (history w wt msgs T)
    = syncs (history w wt (filter (fun tm => qualifiesb w wt (snd tm)) msgs) T).
Proof.
  intros w wt t0 msgs T Hord. rewrite !history_syncsFrom.
  apply (syncsFrom_filter w wt msgs t0); [now left | exact Hord].
Qed.

Lemma filtered_messages_do_not_count_witness :
  syncs (history projWorld projWatcher
           [ (0%Z, FsEvent (fsnotify.mkEvent "/home/u/proj/main.go" fsnotify.Write));
             ((1 * second)%Z, FsEvent (fsnotify.mkEvent "/home/u/proj/.main.go.swp" fsnotify.Write));
             ((3 * second)%Z, FsEvent (fsnotify.mkEvent "/home/u/proj/new.go" fsnotify.Create));
             ((4 * second)%Z, FsError (mkError "queue overflow" false)) ]
           (5 * second)%Z)
  = [ transferAt projWatcher (2 * second)%Z ].
Proof.
  rewrite (filtered_messages_do_not_count projWorld projWatcher 0%Z _ (5 * second)%Z).
  - reflexivity.
  - simpl. unfold second. repeat split; lia.
Defined.

(** X16: a transfer that fails does not stop the loop: the state of the
    timer after any messages and the transfers started by any time are the
    same whatever rsync returns. *)
Theorem loop_survives_failed_transfers :
  forall (w : os.World) (wt : Watcher) (run' : list string -> option error)
         (msgs : list (Z * message)) (T : Z),
    snd (run (withRun w run') wt msgs idle) = snd (run w wt msgs idle)
    /\ syncs (history (withRun w run') wt msgs T) = syncs (history w wt msgs T).
Proof.
  intros w wt run' msgs T. destruct (run_any_tool w wt run' msgs idle) as [Hst Hout].
  split; [exact Hst |]. rewrite !history_syncsFrom. unfold syncsFrom.
  rewrite Hst, Hout. f_equal. rewrite !expire_syncs. reflexivity.
Qed.

(** ** Rooted patterns *)

(** X11: a pattern without a star that starts with a separator excludes
    exactly the path that, relative to the working directory, equals the
    pattern without that separator: nothing deeper, nothing of the same name
    elsewhere. *)
Theorem rooted_pattern_matches_whole_path :
  forall (w : os.World) (path cwd relPath rest : string),
    os.Getwd w = Ok cwd ->
    filepath.Rel cwd path = Ok relPath ->
    strings.Contains (String slash rest) "*" = false ->
    rest <> "" ->
    snd (isExcluded w path [String slash rest]) = (relPath =? rest).
Proof.
  intros w path cwd relPath rest Hcwd Hrel Hstar Hne.
  rewrite isExcluded_decides, Hcwd, Hrel. cbn [existsb].
  unfold patternExcludes, literalRules. rewrite Hstar, orb_false_r.
  assert (Hprefix : strings.HasPrefix (String slash rest) "/" = true).
  { unfold strings.HasPrefix. cbn [String.prefix].
    destruct (ascii_dec "/" slash) as [_ | Hn]; [| now elim Hn]. now destruct rest. }
  assert (Htrim : strings.TrimPrefix (String slash rest) "/" = rest).
  { unfold strings.TrimPrefix. now rewrite Hprefix. }
  assert (Hbase : (filepath.Base relPath =? String slash rest) = false).
  { apply String.eqb_neq. intros Hb. destruct (Base_shape relPath) as [Hs | Hs].
    - rewrite Hb in Hs. injection Hs as Hs. now apply Hne.
    - rewrite Hb in Hs. cbn [slashFree] in Hs. unfold slash in Hs.
      now rewrite Ascii.eqb_refl in Hs. }
  rewrite Hprefix, Htrim, Hbase, orb_false_r. reflexivity.
Qed.

Lemma rooted_pattern_matches_whole_path_witness :
  snd (isExcluded projWorld "/home/u/proj/bin/ssync" ["/bin/ssync"]) = true
  /\ snd (isExcluded projWorld "/home/u/proj/cmd/bin/ssync" ["/bin/ssync"]) = false.
Proof.
  split.
  - apply (rooted_pattern_matches_whole_path projWorld "/home/u/proj/bin/ssync"
             "/home/u/proj" "bin/ssync" "bin/ssync"); (reflexivity || discriminate).
  - apply (rooted_pattern_matches_whole_path projWorld "/home/u/proj/cmd/bin/ssync"
             "/home/u/proj" "cmd/bin/ssync" "bin/ssync"); (reflexivity || discriminate).
Defined.

(** ** What the loop prints *)

Lemma prefix_append (a b : string) : String.prefix a (a ++ b) = true.
Proof.
  induction a as [| c a IH]; cbn [append String.prefix]; [now destruct b |].
  destruct (ascii_dec c c) as [_ | Hn]; [exact IH | now elim Hn].
Qed.

Lemma TrimPrefix_append (a b : string) : strings.TrimPrefix (a ++ b) a = b.
Proof.
  unfold strings.TrimPrefix, strings.HasPrefix. rewrite prefix_append.
  induction a as [| c a IH]; [reflexivity | exact IH].
Qed.

(** X17: for a qualifying event on a file below the watched directory the
    loop prints one line with the operation in lower case between brackets
    and the path of the file relative to that directory; for an event whose
    kind is not watched it prints nothing. *)
Theorem loop_reports_changed_file :
  forall (w : os.World) (wt : Watcher) (now : Z) (rel : string) (op : N) (st : Loop),
    (qualifies w wt (fsnotify.mkEvent (w_source wt ++ "/" ++ rel) op) ->
     In (now, Stdout ("[" ++ strings.ToLower (fsnotify.Op_String op) ++ "] " ++ rel ++ nl))
        (fst (receive w wt now (FsEvent (fsnotify.mkEvent (w_source wt ++ "/" ++ rel) op)) st)))
    /\ (isWatchedEvent (fsnotify.mkEvent (w_source wt ++ "/" ++ rel) op) (w_changeList wt)
        = false ->
        fst (receive w wt now (FsEvent (fsnotify.mkEvent (w_source wt ++ "/" ++ rel) op)) st)
        = fst (expire w wt now st)).
Proof.
  intros w wt now rel op st. split.
  - intros [Hkind Hexcl]. unfold receive.
    destruct (expire w wt now st) as [fired st0]. rewrite Hkind. cbn [negb].
    cbn [fsnotify.Name fsnotify.Op] in *.
    destruct (isExcluded w (w_source wt ++ "/" ++ rel) (w_exclusions wt)) as [said excluded].
    cbn [snd] in Hexcl. subst excluded. cbn [fst].
    apply in_or_app. right. unfold stamp. apply in_map. apply in_or_app. right.
    left. rewrite TrimPrefix_append.
    rewrite (TrimPrefix_append "/" rel).
    reflexivity.
  - intros Hkind. unfold receive.
    destruct (expire w wt now st) as [fired st0]. now rewrite Hkind.
Qed.

Lemma loop_reports_changed_file_witness :
  In (0%Z, Stdout ("[write] cmd/main.go" ++ nl))
     (fst (receive projWorld projWatcher 0%Z
             (FsEvent (fsnotify.mkEvent "/home/u/proj/cmd/main.go" fsnotify.Write)) idle)).
Proof.
  apply (proj1 (loop_reports_changed_file projWorld projWatcher 0%Z "cmd/main.go"
                  fsnotify.Write idle)).
  split; reflexivity.
Defined.

(** ** Patterns of the form star, suffix *)

Lemma isLiteralByte_cases (c : ascii) :
  isLiteralByte c = true ->
  Ascii.eqb c star = false /\ Ascii.eqb c "?"%char = false
  /\ Ascii.eqb c "["%char = false /\ Ascii.eqb c backslash = false.
Proof.
  unfold isLiteralByte. rewrite !andb_true_iff, !negb_true_iff. tauto.
Qed.

Lemma tokens_literal (s : string) : isLiteral s = true -> filepath.tokens s = plainTokens s.
Proof.
  induction s as [| c s IH]; [reflexivity |].
  cbn [isLiteral]. intros H. apply andb_true_iff in H as [Hc Hs].
  destruct (isLiteralByte_cases c Hc) as (_ & _ & _ & Hb).
  cbn [filepath.tokens plainTokens]. now rewrite Hb, (IH Hs).
Qed.

Lemma scanChunks_literal (s : string) (seen : bool) (acc : list filepath.pchar) :
  isLiteral s = true ->
  filepath.scanChunks (plainTokens s) seen false acc
  = if seen || negb (Nat.eqb (List.length (acc ++ rev (plainTokens s))%list) 0)
    then [(seen, (rev acc ++ plainTokens s)%list)] else [].
Proof.
  revert acc. induction s as [| c s IH]; intros acc Hlit.
  - cbn [plainTokens filepath.scanChunks rev]. now rewrite !app_nil_r.
  - cbn [isLiteral] in Hlit. apply andb_true_iff in Hlit as [Hc Hs].
    destruct (isLiteralByte_cases c Hc) as (Hstar & _ & Hopen & _).
    cbn [plainTokens filepath.scanChunks filepath.is_plain]. rewrite Hstar.
    assert (Hnext : forall inrange,
               filepath.scanChunks (plainTokens s) seen inrange (filepath.Plain c :: acc)
               = filepath.scanChunks (plainTokens s) seen false (filepath.Plain c :: acc)).
    { clear - Hs. intros inrange. revert inrange. generalize (filepath.Plain c :: acc).
      induction s as [| d s IHs]; intros acc' inrange; [reflexivity |].
      cbn [isLiteral] in Hs. apply andb_true_iff in Hs as [Hd Hs'].
      destruct (isLiteralByte_cases d Hd) as (Hdstar & _ & _ & _).
      cbn [plainTokens filepath.scanChunks filepath.is_plain]. rewrite Hdstar.
      destruct (Ascii.eqb d "["%char); [now rewrite (IHs Hs' _ true) |].
      destruct (Ascii.eqb d "]"%char); [reflexivity |].
      destruct inrange; [apply (IHs Hs') | reflexivity]. }
    rewrite Hopen.
    assert (Hgo : (if Ascii.eqb c "]"%char
                   then filepath.scanChunks (plainTokens s) seen false (filepath.Plain c :: acc)
                   else filepath.scanChunks (plainTokens s) seen false (filepath.Plain c :: acc))
                  = filepath.scanChunks (plainTokens s) seen false (filepath.Plain c :: acc))
      by (destruct (Ascii.eqb c "]"%char); reflexivity).
    rewrite Hgo, (IH (filepath.Plain c :: acc) Hs).
    cbn [rev]. rewrite <- !app_assoc. cbn [app].
    rewrite !length_app. cbn [List.length]. rewrite !length_app. cbn [List.length].
    replace (List.length acc + S (List.length (rev (plainTokens s))))%nat
      with (S (List.length acc + List.length (rev (plainTokens s))))%nat by lia.
    replace (List.length acc + (List.length (rev (plainTokens s)) + 1))%nat
      with (S (List.length acc + List.length (rev (plainTokens s))))%nat by lia.
    reflexivity.
Qed.

Lemma prefix_empty (s : string) : String.prefix "" s = true.
Proof. now destruct s. Qed.

Lemma matchChunk_literal (lit : string) :
  forall (s : string) (failed : bool),
    isLiteral lit = true ->
    filepath.matchChunk (plainTokens lit) s failed
    = Ok (if failed then None
          else if String.prefix lit s then Some (strings.drop (String.length lit) s)
               else None).
Proof.
  induction lit as [| c lit IH]; intros s failed Hlit.
  - cbn [plainTokens filepath.matchChunk String.length strings.drop].
    rewrite prefix_empty. now destruct failed.
  - cbn [isLiteral] in Hlit. apply andb_true_iff in Hlit as [Hc Hl].
    destruct (isLiteralByte_cases c Hc) as (_ & Hq & Hopen & _).
    cbn [plainTokens filepath.matchChunk]. rewrite Hopen, Hq.
    rewrite (IH _ _ Hl). destruct failed; [reflexivity |]. cbn [orb].
    destruct s as [| d s]; [reflexivity |].
    cbn [String.eqb filepath.tail_bytes filepath.head_byte String.prefix String.length
         strings.drop orb].
    destruct (ascii_dec c d) as [<- | Hcd].
    + now rewrite Ascii.eqb_refl.
    + apply Ascii.eqb_neq in Hcd. now rewrite Hcd.
Qed.

Lemma prefix_exact (a s : string) :
  String.prefix a s = true -> strings.drop (String.length a) s = "" -> s = a.
Proof.
  revert s. induction a as [| c a IH]; intros s Hp Hd.
  - exact Hd.
  - destruct s as [| d s]; [discriminate |]. cbn [String.prefix] in Hp.
    destruct (ascii_dec c d) as [<- | _]; [| discriminate].
    cbn [String.length strings.drop] in Hd. now rewrite (IH s Hp Hd).
Qed.

Lemma drop_all (a : string) : strings.drop (String.length a) a = "".
Proof. induction a as [| c a IH]; [reflexivity | exact IH]. Qed.

Lemma prefix_refl (a : string) : String.prefix a a = true.
Proof.
  induction a as [| c a IH]; [reflexivity |]. cbn [String.prefix].
  destruct (ascii_dec c c) as [_ | Hn]; [exact IH | now elim Hn].
Qed.

Lemma exact_prefix (a s : string) :
  (s =? a) = String.prefix a s && (strings.drop (String.length a) s =? "").
Proof.
  destruct (String.prefix a s) eqn:Hp; cbn [andb].
  - destruct (strings.drop (String.length a) s =? "") eqn:Hd.
    + apply String.eqb_eq in Hd. apply String.eqb_eq. now apply prefix_exact.
    + apply String.eqb_neq. intros ->. rewrite drop_all in Hd. discriminate.
  - apply String.eqb_neq. intros ->. rewrite prefix_refl in Hp. discriminate.
Qed.

(** A star followed by a literal suffix matches the names, without
    separator, that end with the suffix. *)
Lemma star_chunk (suffix : string) :
  isLiteral suffix = true -> suffix <> "" ->
  forall name, slashFree name = true ->
    filepath.matchChunks [(true, plainTokens suffix)] name = Ok (endsWith name suffix).
Proof.
  intros Hlit Hne name.
  assert (Hnil : filepath.is_nil (plainTokens suffix) = false).
  { destruct suffix; [congruence | reflexivity]. }
  induction name as [| c name IH]; intros Hsf.
  - cbn [filepath.matchChunks]. rewrite Hnil. cbn [andb].
    rewrite (matchChunk_literal suffix "" false Hlit).
    destruct suffix as [| d suffix]; [congruence |]. reflexivity.
  - cbn [slashFree] in Hsf. apply andb_true_iff in Hsf as [Hc Hsf].
    apply negb_true_iff in Hc. specialize (IH Hsf).
    cbn [filepath.matchChunks] in IH |- *. rewrite Hnil in IH |- *. cbn [andb] in IH |- *.
    rewrite Hc.
    rewrite (matchChunk_literal suffix name false Hlit) in IH |- *.
    rewrite (matchChunk_literal suffix (String c name) false Hlit).
    cbn [filepath.is_nil negb orb andb] in IH |- *.
    cbn [endsWith]. rewrite (exact_prefix suffix (String c name)).
    match type of IH with
    | context [if String.prefix suffix name then _ else None] =>
        destruct (String.prefix suffix name)
    end;
      [destruct (strings.drop (String.length suffix) name =? "") |];
      cbn [orb negb] in IH |- *;
      (destruct (String.prefix suffix (String c name)); cbn [andb orb];
       [destruct (strings.drop (String.length suffix) (String c name) =? "");
        cbn [orb] |]);
      first [reflexivity | exact IH].
Qed.

Lemma endsWith_empty (s : string) : endsWith s "" = true.
Proof.
  induction s as [| c s IH]; [reflexivity |]. cbn [endsWith]. rewrite IH. apply orb_true_r.
Qed.

Lemma endsWith_refl (s : string) : endsWith s s = true.
Proof. destruct s; cbn [endsWith]; now rewrite String.eqb_refl. Qed.

Lemma slashFree_Contains (s : string) :
  slashFree s = true -> strings.Contains s "/" = false.
Proof.
  induction s as [| c s IH]; [reflexivity |].
  cbn [slashFree strings.Contains String.prefix]. intros H.
  apply andb_true_iff in H as [Hc Hs]. apply negb_true_iff in Hc.
  rewrite (IH Hs), orb_false_r.
  destruct (ascii_dec "/" c) as [<- | _]; [| reflexivity].
  unfold slash in Hc. now rewrite Ascii.eqb_refl in Hc.
Qed.

Lemma Match_star_suffix (suffix name : string) :
  isLiteral suffix = true -> slashFree name = true ->
  filepath.Match (String star suffix) name = Ok (endsWith name suffix).
Proof.
  intros Hlit Hsf. unfold filepath.Match.
  assert (Htok : filepath.tokens (String star suffix)
                 = filepath.Plain star :: plainTokens suffix).
  { cbn [filepath.tokens]. change (Ascii.eqb star backslash) with false. cbv iota.
    now rewrite (tokens_literal suffix Hlit). }
  rewrite Htok. cbn [filepath.scanChunks filepath.is_plain].
  change (Ascii.eqb star star) with true. cbv iota.
  rewrite (scanChunks_literal suffix true [] Hlit). cbn [orb rev app].
  destruct suffix as [| c suffix].
  - cbn [plainTokens filepath.matchChunks filepath.is_nil andb].
    now rewrite (slashFree_Contains name Hsf), endsWith_empty.
  - apply star_chunk; [exact Hlit | discriminate | exact Hsf].
Qed.

(** The last element of what [Rel] answers holds no separator. *)
Lemma Base_of_Rel (basepath targpath rp : string) :
  filepath.Rel basepath targpath = Ok rp -> slashFree (filepath.Base rp) = true.
Proof.
  intros Hrel.
  destruct (Rel_shape _ _ _ Hrel) as [[-> _] | [_ (e & es & He & _ & Hes & ->)]];
    [reflexivity |].
  assert (Hall : Forall isElement (e :: es)) by now constructor.
  rewrite (app_removelast_last (l := e :: es) "") in Hall |- * by discriminate.
  rewrite (Base_Join _ _ Hall).
  apply Forall_app in Hall as [_ Hlast]. now inversion Hlast as [| ? ? [_ ?] _].
Qed.

(** X12: a pattern made of a star and a suffix without further wildcard
    excludes exactly the paths whose last element ends with that suffix, at
    any depth. *)
Theorem suffix_pattern_matches_extension :
  forall (w : os.World) (path cwd relPath suffix : string),
    os.Getwd w = Ok cwd ->
    filepath.Rel cwd path = Ok relPath ->
    isLiteral suffix = true ->
    snd (isExcluded w path [String star suffix]) = endsWith (filepath.Base relPath) suffix.
Proof.
  intros w path cwd relPath suffix Hcwd Hrel Hlit.
  rewrite isExcluded_decides, Hcwd, Hrel. cbn [existsb]. rewrite orb_false_r.
  unfold patternExcludes.
  assert (Hstar : strings.Contains (String star suffix) "*" = true).
  { cbn [strings.Contains String.prefix].
    destruct (ascii_dec "*" star) as [_ | Hn]; [| now elim Hn]. now destruct suffix. }
  rewrite Hstar, (Match_star_suffix suffix _ Hlit (Base_of_Rel _ _ _ Hrel)).
  destruct (endsWith (filepath.Base relPath) suffix) eqn:Hends; [reflexivity |].
  cbn [orb]. unfold literalRules.
  assert (Hroot : strings.HasPrefix (String star suffix) "/" = false).
  { unfold strings.HasPrefix. cbn [String.prefix].
    destruct (ascii_dec "/" star) as [Heq | _]; [discriminate Heq | reflexivity]. }
  rewrite Hroot. cbn [andb orb]. apply String.eqb_neq. intros Hb.
  rewrite Hb in Hends. cbn [endsWith] in Hends. rewrite endsWith_refl in Hends.
  rewrite orb_true_r in Hends. discriminate.
Qed.

Lemma suffix_pattern_matches_extension_witness :
  snd (isExcluded projWorld "/home/u/proj/cmd/.main.go.swp" ["*.swp"]) = true
  /\ snd (isExcluded projWorld "/home/u/proj/notes.swp.bak" ["*.swp"]) = false.
Proof.
  split.
  - apply (suffix_pattern_matches_extension projWorld "/home/u/proj/cmd/.main.go.swp"
             "/home/u/proj" "cmd/.main.go.swp" ".swp"); reflexivity.
  - apply (suffix_pattern_matches_extension projWorld "/home/u/proj/notes.swp.bak"
             "/home/u/proj" "notes.swp.bak" ".swp"); reflexivity.
Defined.
